(** * The vertical-collection component

    A shallow embedding of [addon/components/vertical-collection.ts]: the
    argument getters, [calculateStartingIndex], the constructor, the
    debounced dispatch of edge actions and the teardown hook, together with
    the parts of the environment they talk to (the window timers, the
    scheduler queue held under the component's token, and the radar).

    The helpers [objectAt] and [keyForItem] and the radar classes are imported
    by the component from [addon/-private], whose code is not covered here.
    The two helpers are parameters of the development; the radar lifecycle
    and the static occlusion arithmetic are modelled from the specification
    and marked as such. *)

From Stdlib Require Import ZArith QArith Qround.
From stdpp Require Import gmap strings list pretty.

(** ** JavaScript values held by argument slots *)

(** A host callback is known by its identity only: the component never looks
    inside a handler, it calls it. *)
Definition handler := positive.

Inductive jsval : Type :=
| JUndefined
| JNull
| JBool (b : bool)
| JNum (n : Z)
| JStr (s : string)
| JFun (h : handler).

(** [!!v] *)
Definition truthy (v : jsval) : bool :=
  match v with
  | JUndefined | JNull => false
  | JBool b => b
  | JNum n => negb (n =? 0)%Z
  | JStr s => negb (String.eqb s "")
  | JFun _ => true
  end.

(** [typeof v == 'function'], returning the callable. *)
Definition is_function (v : jsval) : option handler :=
  match v with
  | JFun h => Some h
  | _ => None
  end.

(** [o ?? d]: the left operand unless it is [null] or [undefined]. *)
Definition nullish {A : Type} (o : option A) (d : A) : A :=
  match o with
  | Some a => a
  | None => d
  end.

(** The two radar classes the constructor chooses from. *)
Inductive RadarClass : Type := StaticRadar | DynamicRadar.

(** The lifecycle of a radar (specification, section 4.5). *)
Inductive RadarMode : Type := idle | started | destroyed.

(** A job handed to the scheduler under the component's token. *)
Inductive Job : Type :=
| StartJob    (* [() => { this._radar.start(); }] *)
| UpdateJob.  (* the read and write phase of one radar update *)

(** ** The static occlusion calculator *)

(** Modelled from the spec: the static occlusion calculator of section 4.2
    (StaticRadar is not among the sources).  Offsets and heights are
    rationals, indices are integers; [estimateHeight] is taken to be
    positive. *)
Module StaticOcclusion.

Record Ranges : Type := mkRanges {
  totalContentHeight : Q;
  firstVisible : Z;
  lastVisible : Z;
  renderStart : Z;
  renderEnd : Z;
  beforeSpacer : Q;
  afterSpacer : Q
}.

(** "clamped to [0, totalItems-1]" *)
Definition clamp (totalItems x : Z) : Z := Z.max 0 (Z.min (totalItems - 1) x).

Definition bufferItems (bufferSize viewportHeight estimateHeight : Q) : Z :=
  Qceiling (bufferSize * viewportHeight / estimateHeight).

Definition calculate (scrollOffset viewportHeight estimateHeight bufferSize : Q)
    (totalItems : Z) : Ranges :=
  let first := clamp totalItems (Qfloor (scrollOffset / estimateHeight)) in
  let last := clamp totalItems (Qfloor ((scrollOffset + viewportHeight) / estimateHeight)) in
  let buffer := bufferItems bufferSize viewportHeight estimateHeight in
  let rstart := Z.max 0 (first - buffer) in
  let rend := Z.min totalItems (last + buffer + 1) in
  mkRanges (inject_Z totalItems * estimateHeight) first last rstart rend
    (inject_Z rstart * estimateHeight) (inject_Z (totalItems - rend) * estimateHeight).

End StaticOcclusion.

(** ** A concrete host, to run the definitions on *)

(** Modelled from the spec: an instance of the two helpers of [addon/-private]
    for items that are strings.  [objectAt] indexes the array and gives
    [None] (undefined) outside it; [keyForItem] follows section 4.1, a string
    being its own identity and an undefined item falling back to its
    index. *)
Module Sample.

Definition item : Type := option string.

Definition objectAt (its : option (list item)) (index : Z) : item :=
  match its with
  | Some l => if (index <? 0)%Z then None else nullish (l !! Z.to_nat index) None
  | None => None
  end.

Definition keyForItem (it : item) (keyPath : string) (index : Z) : string :=
  if String.eqb keyPath "@index" then pretty index
  else match it with
       | Some s => s
       | None => pretty index
       end.

End Sample.

(** ** The debug decorator ([addon/-debug/edge-visualization/debug.ts]) *)

Section DebugDecorator.

(** Items and DOM elements are opaque. *)
Context {Item Element : Type}.

(** [radar.scrollContainer]: the [ViewportContainer] object or an element. *)
Inductive ScrollContainer : Type :=
| ViewportContainer
| ScrollElement (e : Element).

(** The elements [detectIssuesWithCSS] reads off the radar; the first child
    of the item container is [null] when nothing is rendered. *)
Record RadarElements : Type := mkRadarElements {
  scrollContainer : ScrollContainer;
  itemContainer : Element;
  firstElementChild : option Element
}.

(** How a call ends: it returns, or it reads a name that is bound
    nowhere. *)
Inductive Outcome : Type :=
| Returned
| ReferenceError.

(** The fields the decorator adds to the component. *)
Record DebugFields : Type := mkDebugFields {
  debugVis : bool;
  debugCSS : bool;
  __visualization : option positive
}.

(** [detectIssuesWithCSS()], given the decorator's fields, the radar's
    elements and [this.items].  With [debugCSS] off it returns at once.
    Otherwise it reads the computed style of the scroll container (or of
    [document.body]) and evaluates the argument of its first [assert],
    [styleIsOneOf(styles, 'display', ...)]: the file neither imports nor
    defines [styleIsOneOf], [hasStyleWithNonZeroValue] and [hasStyleValue],
    so that evaluation raises a [ReferenceError] and no later statement of
    the method is reached. *)
Definition detectIssuesWithCSS (d : DebugFields) (radar : RadarElements)
    (its : option (list Item)) : Outcome :=
  if negb (debugCSS d) then Returned else ReferenceError.

(** What the decorator does to visualizations and the console.  A
    visualization is known by the order of its creation. *)
Inductive VisEffect : Type :=
| VisNew (v : positive)        (* [new Visualization(this._radar)] *)
| VisRender (v : positive)     (* [v.render()] *)
| VisDestroy (v : positive)    (* [v.destroy()] *)
| ConsoleInfo (msg : string).  (* [console.info(msg)] *)

Record DebugWorld : Type := mkDebugWorld {
  debug_fields : DebugFields;
  next_visualization : positive;
  vis_log : list VisEffect
}.

(** The decorator's field initialisers. *)
Definition debug_constructor : DebugWorld :=
  mkDebugWorld (mkDebugFields false false None) 1%positive [].

Definition updateVisualization (w : DebugWorld) : DebugWorld :=
  let d := debug_fields w in
  if negb (debugVis d) then
    match __visualization d with
    | Some v =>
        mkDebugWorld (mkDebugFields (debugVis d) (debugCSS d) None) (next_visualization w)
          (vis_log w ++ [ConsoleInfo "tearing down existing visualization"; VisDestroy v])
    | None => w
    end
  else
    match __visualization d with
    | None =>
        let v := next_visualization w in
        mkDebugWorld (mkDebugFields (debugVis d) (debugCSS d) (Some v)) (Pos.succ v)
          (vis_log w ++ [VisNew v; VisRender v])
    | Some v =>
        mkDebugWorld d (next_visualization w) (vis_log w ++ [VisRender v])
    end.

(** The decorator's [willDestroy()], after [super.willDestroy()]. *)
Definition willDestroy (w : DebugWorld) : DebugWorld :=
  let d := debug_fields w in
  match __visualization d with
  | Some v =>
      mkDebugWorld (mkDebugFields (debugVis d) (debugCSS d) None) (next_visualization w)
        (vis_log w ++ [ConsoleInfo "destroying visualization"; VisDestroy v])
  | None => w
  end.

(** The hook stored in [_radar._debugDidUpdate]: the visualization is brought
    up to date, then the CSS is checked. *)
Definition _debugDidUpdate (radar : RadarElements) (its : option (list Item))
    (w : DebugWorld) : DebugWorld * Outcome :=
  let w := updateVisualization w in
  (w, detectIssuesWithCSS (debug_fields w) radar its).

Inductive DebugEvent : Type :=
| SetDebugVis (b : bool)                                         (* the host sets [debugVis] *)
| SetDebugCSS (b : bool)                                         (* the host sets [debugCSS] *)
| DidUpdate (radar : RadarElements) (its : option (list Item))   (* the radar calls the hook *)
| Destroyed.                                                     (* the component is destroyed *)

Definition debug_step (w : DebugWorld) (e : DebugEvent) : DebugWorld :=
  let d := debug_fields w in
  match e with
  | SetDebugVis b =>
      mkDebugWorld (mkDebugFields b (debugCSS d) (__visualization d))
        (next_visualization w) (vis_log w)
  | SetDebugCSS b =>
      mkDebugWorld (mkDebugFields (debugVis d) b (__visualization d))
        (next_visualization w) (vis_log w)
  | DidUpdate radar its => fst (_debugDidUpdate radar its w)
  | Destroyed => willDestroy w
  end.

Definition debug_run (es : list DebugEvent) (w : DebugWorld) : DebugWorld :=
  fold_left debug_step es w.

(** Replaying a log: the visualizations alive at its end, and whether every
    [render] and [destroy] met a visualization that was alive and every
    [new] happened while none was. *)
Definition replay_step (st : list positive * bool) (e : VisEffect) : list positive * bool :=
  let '(alive, ok) := st in
  match e with
  | VisNew v => (alive ++ [v], ok && bool_decide (alive = []))
  | VisRender v => (alive, ok && bool_decide (v ∈ alive))
  | VisDestroy v => (filter (fun u => u <> v) alive, ok && bool_decide (v ∈ alive))
  | ConsoleInfo _ => (alive, ok)
  end.

Definition replay (log : list VisEffect) : list positive * bool :=
  fold_left replay_step log ([], true).

(** The visualization the field holds, as a list. *)
Definition held (d : DebugFields) : list positive :=
  match __visualization d with Some v => [v] | None => [] end.

End DebugDecorator.

(** ** The component *)

Section VerticalCollection.

(** The items of the host collection are opaque ([unknown] in the source). *)
Context {Item : Type}.

(** [objectAt(items, index)] and [keyForItem(item, keyPath, index)] from
    [addon/-private].  [objectAt] gives the element of a collection; on
    [null], which [this.items] may be, the call throws, so the parameter is
    only ever consulted on [Some] collection. *)
Variable objectAt : option (list Item) -> Z -> Item.
Variable keyForItem : Item -> string -> Z -> string.

(** *** Arguments ([IVerticalCollectionArgs]) *)

(** A field left out by the host is [None].  The index signature
    [[key: string]: unknown] is the map [arg_named], where the four edge
    handlers live. *)
Record Args : Type := mkArgs {
  arg_estimateHeight : option Q;
  arg_items : option (list Item);
  arg_staticHeight : option bool;
  arg_containerSelector : option string;
  arg_bufferSize : option Q;
  arg_idForFirstItem : option string;
  arg_renderFromLast : option bool;
  arg_renderAll : option bool;
  arg_initialRenderCount : option Q;
  arg_named : gmap string jsval
}.

(** [this.args[name]] *)
Definition arg_get (a : Args) (name : string) : jsval :=
  nullish (arg_named a !! name) JUndefined.

(** *** The radar, as far as the component reads and writes it *)

Record Radar : Type := mkRadar {
  radar_class : RadarClass;
  radar_bufferSize : Q;
  radar_containerSelector : string;
  radar_estimateHeight : option Q;
  radar_initialRenderCount : option Q;
  radar_items : list Item;
  radar_key : string;
  radar_renderAll : bool;
  radar_renderFromLast : bool;
  radar_shouldRecycle : bool;
  radar_startingIndex : Z;
  radar_occlusionTagName : string;
  radar_sendAction : bool;       (* has the component installed its closure? *)
  radar_debugDidUpdate : bool;   (* has the debug decorator installed its hook? *)
  radar_mode : RadarMode
}.

(** *** The component instance *)

Record Component : Type := mkComponent {
  args : Args;
  key : string;
  shouldRecycle : bool;
  occlusionTagName : string;
  token_cancelled : bool;
  _radar : Radar;
  _scheduledActions : list (string * Z);
  _hasAction : option (gmap string bool);
  _prevItemsLength : Z;
  _prevFirstKey : option string;
  _prevLastKey : option string;
  _nextSendActions : option positive
}.

(** One handler invocation [_action(item, index, key)]. *)
Record Call : Type := mkCall {
  call_handler : handler;
  call_item : Item;
  call_index : Z;
  call_key : string
}.

(** What an observer outside the component can see. *)
Inductive Effect : Type :=
| EffNewRadar (cls : RadarClass)   (* [new RadarClass(...)] *)
| EffStarted                       (* the radar started *)
| EffAssert (msg : string)         (* an assertion failed *)
| EffUpdate                        (* an update phase of the radar ran *)
| EffBatch (calls : list Call)     (* one [run(...)] of handler calls *)
| EffThrow (calls : list Call).    (* a [run(...)] that threw after these calls *)

(** The component together with its environment: the window timers that are
    armed, the next handle [window.setTimeout] hands out (handles are
    positive integers), the scheduler queue and the effects so far. *)
Record World : Type := mkWorld {
  component : Component;
  timers : list positive;
  next_timer : positive;
  jobs : list (string * Job);
  trace : list Effect
}.

(** *** Getters

    Every getter reads [this.args] and nothing else, so it is a function of
    the arguments. *)

Definition estimateHeight (a : Args) : option Q := arg_estimateHeight a.
Definition items (a : Args) : option (list Item) := arg_items a.
Definition staticHeight (a : Args) : bool := nullish (arg_staticHeight a) false.
Definition containerSelector (a : Args) : string := nullish (arg_containerSelector a) "*".
Definition bufferSize (a : Args) : Q := nullish (arg_bufferSize a) (1 # 1).
Definition idForFirstItem (a : Args) : option string := arg_idForFirstItem a.
Definition renderFromLast (a : Args) : bool := nullish (arg_renderFromLast a) false.
Definition renderAll (a : Args) : bool := nullish (arg_renderAll a) false.

(** [this.items?.length === 0] *)
Definition isEmpty (a : Args) : bool :=
  match items a with
  | Some l => (Z.of_nat (length l) =? 0)%Z
  | None => false
  end.

Definition shouldYieldToInverse (a : Args) : bool := isEmpty a.

(** *** calculateStartingIndex *)

(** The [for] loop: [i] is the loop variable, [fuel] the iterations left
    before [i] reaches [totalItems]; leaving the loop without a match keeps
    the initial [startingIndex = 0]. *)
Fixpoint scanForKey (its : list Item) (id : string) (keyPath : string)
    (i : nat) (fuel : nat) : Z :=
  match fuel with
  | O => 0%Z
  | S fuel' =>
      if String.eqb (keyForItem (objectAt (Some its) (Z.of_nat i)) keyPath (Z.of_nat i)) id
      then Z.of_nat i
      else scanForKey its id keyPath (S i) fuel'
  end.

Definition calculateStartingIndex (its : list Item) (idForFirst : option string)
    (keyPath : string) (fromLast : bool) : Z :=
  let totalItems := length its in
  match idForFirst with
  | Some id => scanForKey its id keyPath 0 totalItems
  | None => if fromLast then (Z.of_nat totalItems - 1)%Z else 0%Z
  end.

(** *** Field updates *)

Definition set_radar_inputs (its : list Item) (eh : option Q) (ra : bool) (bs : Q)
    (r : Radar) : Radar :=
  mkRadar (radar_class r) bs (radar_containerSelector r) eh
    (radar_initialRenderCount r) its (radar_key r) ra (radar_renderFromLast r)
    (radar_shouldRecycle r) (radar_startingIndex r) (radar_occlusionTagName r)
    (radar_sendAction r) (radar_debugDidUpdate r) (radar_mode r).

Definition set_radar_sendAction (b : bool) (r : Radar) : Radar :=
  mkRadar (radar_class r) (radar_bufferSize r) (radar_containerSelector r)
    (radar_estimateHeight r) (radar_initialRenderCount r) (radar_items r) (radar_key r)
    (radar_renderAll r) (radar_renderFromLast r) (radar_shouldRecycle r)
    (radar_startingIndex r) (radar_occlusionTagName r) b (radar_debugDidUpdate r)
    (radar_mode r).

Definition set_radar_debugDidUpdate (b : bool) (r : Radar) : Radar :=
  mkRadar (radar_class r) (radar_bufferSize r) (radar_containerSelector r)
    (radar_estimateHeight r) (radar_initialRenderCount r) (radar_items r) (radar_key r)
    (radar_renderAll r) (radar_renderFromLast r) (radar_shouldRecycle r)
    (radar_startingIndex r) (radar_occlusionTagName r) (radar_sendAction r) b
    (radar_mode r).

Definition set_radar_mode (m : RadarMode) (r : Radar) : Radar :=
  mkRadar (radar_class r) (radar_bufferSize r) (radar_containerSelector r)
    (radar_estimateHeight r) (radar_initialRenderCount r) (radar_items r) (radar_key r)
    (radar_renderAll r) (radar_renderFromLast r) (radar_shouldRecycle r)
    (radar_startingIndex r) (radar_occlusionTagName r) (radar_sendAction r)
    (radar_debugDidUpdate r) m.

Definition set_args (a : Args) (c : Component) : Component :=
  mkComponent a (key c) (shouldRecycle c) (occlusionTagName c) (token_cancelled c)
    (_radar c) (_scheduledActions c) (_hasAction c) (_prevItemsLength c)
    (_prevFirstKey c) (_prevLastKey c) (_nextSendActions c).

Definition set_token_cancelled (b : bool) (c : Component) : Component :=
  mkComponent (args c) (key c) (shouldRecycle c) (occlusionTagName c) b
    (_radar c) (_scheduledActions c) (_hasAction c) (_prevItemsLength c)
    (_prevFirstKey c) (_prevLastKey c) (_nextSendActions c).

Definition set_radar (r : Radar) (c : Component) : Component :=
  mkComponent (args c) (key c) (shouldRecycle c) (occlusionTagName c) (token_cancelled c)
    r (_scheduledActions c) (_hasAction c) (_prevItemsLength c)
    (_prevFirstKey c) (_prevLastKey c) (_nextSendActions c).

Definition set_scheduledActions (l : list (string * Z)) (c : Component) : Component :=
  mkComponent (args c) (key c) (shouldRecycle c) (occlusionTagName c) (token_cancelled c)
    (_radar c) l (_hasAction c) (_prevItemsLength c)
    (_prevFirstKey c) (_prevLastKey c) (_nextSendActions c).

Definition set_nextSendActions (t : option positive) (c : Component) : Component :=
  mkComponent (args c) (key c) (shouldRecycle c) (occlusionTagName c) (token_cancelled c)
    (_radar c) (_scheduledActions c) (_hasAction c) (_prevItemsLength c)
    (_prevFirstKey c) (_prevLastKey c) t.

Definition set_component (c : Component) (w : World) : World :=
  mkWorld c (timers w) (next_timer w) (jobs w) (trace w).

Definition set_timers (ts : list positive) (w : World) : World :=
  mkWorld (component w) ts (next_timer w) (jobs w) (trace w).

Definition set_jobs (js : list (string * Job)) (w : World) : World :=
  mkWorld (component w) (timers w) (next_timer w) js (trace w).

Definition emit (e : Effect) (w : World) : World :=
  mkWorld (component w) (timers w) (next_timer w) (jobs w) (trace w ++ [e]).

(** *** The window timers *)

(** [window.setTimeout(cb)]: a fresh positive handle, armed.  The only
    callback this component ever passes is the dispatch closure of
    [_scheduleSendAction], so the handle is all that is recorded. *)
Definition setTimeout (w : World) : positive * World :=
  let id := next_timer w in
  (id, mkWorld (component w) (timers w ++ [id]) (Pos.succ id) (jobs w) (trace w)).

(** [clearTimeout(id)] *)
Definition clearTimeout (id : positive) (w : World) : World :=
  set_timers (filter (fun t => t <> id) (timers w)) w.

(** *** _scheduleSendAction and its timer callback *)

(** How the body of the [forEach] callback ends for one scheduled pair:
    with an exception, or normally, having called a handler or not. *)
Inductive BodyResult : Type :=
| BodyThrows
| BodyReturns (call : option Call).

(** The body of the [forEach] callback for one scheduled pair: resolve the
    item and its key, look the handler up in the arguments, and call it when
    it is a function.  With [items] null the first statement,
    [objectAt(items, index)], throws. *)
Definition forEachBody (its : option (list Item)) (keyPath : string) (a : Args)
    (entry : string * Z) : BodyResult :=
  let '(action, index) := entry in
  match its with
  | None => BodyThrows
  | Some _ =>
      let item := objectAt its index in
      let k := keyForItem item keyPath index in
      match is_function (arg_get a action) with
      | Some _action => BodyReturns (Some (mkCall _action item index k))
      | None => BodyReturns None
      end
  end.

(** The handler call the body makes for one pair, if it makes one. *)
Definition deliver (its : option (list Item)) (keyPath : string) (a : Args)
    (entry : string * Z) : option Call :=
  match forEachBody its keyPath a entry with
  | BodyReturns call => call
  | BodyThrows => None
  end.

(** [_scheduledActions.forEach(...)]: the calls made, and whether the loop
    ran to its end ([true]) or was cut short by an exception ([false]). *)
Fixpoint forEach (its : option (list Item)) (keyPath : string) (a : Args)
    (waiting : list (string * Z)) : list Call * bool :=
  match waiting with
  | [] => ([], true)
  | entry :: rest =>
      match forEachBody its keyPath a entry with
      | BodyThrows => ([], false)
      | BodyReturns call =>
          let '(calls, completed) := forEach its keyPath a rest in
          (match call with Some c => c :: calls | None => calls end, completed)
      end
  end.

(** The closure given to [window.setTimeout]: the field is reset first, the
    list is emptied last, after the loop; an exception in the loop leaves the
    callback before the list is emptied.  Handlers are host code and are
    taken to return without calling back into the component. *)
Definition sendActionsCallback (w : World) : World :=
  let c := set_nextSendActions None (component w) in
  let its := items (args c) in
  let keyPath := key c in
  let '(calls, completed) := forEach its keyPath (args c) (_scheduledActions c) in
  if completed
  then emit (EffBatch calls) (set_component (set_scheduledActions [] c) w)
  else emit (EffThrow calls) (set_component c w).

Definition _scheduleSendAction (action : string) (index : Z) (w : World) : World :=
  let c := component w in
  let c := set_scheduledActions (_scheduledActions c ++ [(action, index)]) c in
  match _nextSendActions c with
  | None =>
      let '(id, w) := setTimeout w in
      set_component (set_nextSendActions (Some id) c) w
  | Some _ => set_component c w
  end.

(** The closure the constructor stores in [_radar.sendAction]. *)
Definition sendAction (action : string) (index : Z) (w : World) : World :=
  match _hasAction (component w) with
  | Some has =>
      if nullish (has !! action) false then _scheduleSendAction action index w else w
  | None => w
  end.

(** *** The constructor *)

Definition hasActionRecord (a b c d : bool) : gmap string bool :=
  <["lastReached" := a]> (<["firstReached" := b]>
    (<["lastVisibleChanged" := c]> (<["firstVisibleChanged" := d]> ∅))).

(** [constructor(owner, args)], followed by the constructor of the [@debug]
    decorator, which stores [_debugDidUpdate] on the radar. *)
Definition constructor (ar : Args) : World :=
  let RadarClass := if staticHeight ar then StaticRadar else DynamicRadar in
  let its := match items ar with Some l => l | None => [] end in
  let keyPath := "@identity" in
  let startingIndex :=
    calculateStartingIndex its (idForFirstItem ar) keyPath (renderFromLast ar) in
  let radar :=
    mkRadar RadarClass (bufferSize ar) (containerSelector ar) (estimateHeight ar)
      (arg_initialRenderCount ar) its keyPath (renderAll ar) (renderFromLast ar)
      true startingIndex "occluded-content" false false idle in
  let a := truthy (arg_get ar "lastReached") in
  let b := truthy (arg_get ar "firstReached") in
  let c := truthy (arg_get ar "lastVisibleChanged") in
  let d := truthy (arg_get ar "firstVisibleChanged") in
  let any := a || b || c || d in
  let radar := if any then set_radar_sendAction true radar else radar in
  let has := if any then Some (hasActionRecord a b c d) else None in
  let radar := set_radar_debugDidUpdate true radar in
  mkWorld
    (mkComponent ar keyPath true "occluded-content" false radar [] has 0%Z None None None)
    [] 1%positive [] [EffNewRadar RadarClass].

(** *** The radar lifecycle *)

(** Modelled from the spec: the update the radar applies when its scheduled
    read and write phases run (the Radar class is not among the sources).
    Section 4.5: an update is applied only in the started state, and each
    applied update reports the edge crossings it detects through
    [sendAction].  Which crossings those are depends on scroll offsets and
    measured heights, so they are an input here. *)
Definition radar_update (crossings : list (string * Z)) (w : World) : World :=
  match radar_mode (_radar (component w)) with
  | started =>
      let w := emit EffUpdate w in
      if radar_sendAction (_radar (component w))
      then fold_left (fun w '(action, index) => sendAction action index w) crossings w
      else w
  | _ => w
  end.

(** Modelled from the spec: [Radar.start()] (the Radar class is not among the
    sources).  Section 4.5: valid only from idle, it performs the initial
    computation and moves to started.  Section 7 (a): a [bufferSize <= 0] is
    reported by an assertion at [start()]; the failed assertion aborts the
    call, which leaves the radar idle. *)
Definition radar_start (crossings : list (string * Z)) (w : World) : World :=
  let c := component w in
  match radar_mode (_radar c) with
  | idle =>
      if Qle_bool (radar_bufferSize (_radar c)) 0
      then emit (EffAssert "bufferSize must be greater than 0") w
      else
        let w := set_component (set_radar (set_radar_mode started (_radar c)) c) w in
        radar_update crossings (emit EffStarted w)
  | _ => w
  end.

Definition is_update (j : string * Job) : bool :=
  match snd j with UpdateJob => true | StartJob => false end.

(** Modelled from the spec: [Radar.scheduleUpdate(force)] (the Radar class is
    not among the sources).  Section 4.5: valid from started, and coalesced
    into the pending update when there is one.  [force] only decides whether
    an update with unchanged inputs recomputes, which the model does not
    look into; the queue name plays no part either. *)
Definition radar_scheduleUpdate (force : bool) (w : World) : World :=
  match radar_mode (_radar (component w)) with
  | started =>
      if existsb is_update (jobs w) then w
      else set_jobs (jobs w ++ [("layout", UpdateJob)]) w
  | _ => w
  end.

(** Modelled from the spec: [Radar.destroy()] (the Radar class is not among
    the sources).  Sections 4.5 and 5: it moves to destroyed from any state,
    is idempotent, and cancels the pending scheduled phases. *)
Definition radar_destroy (w : World) : World :=
  let c := component w in
  set_jobs (filter (fun j => is_update j = false) (jobs w))
    (set_component (set_radar (set_radar_mode destroyed (_radar c)) c) w).

(** *** Methods of the component *)

(** The [virtualComponents] getter; the value it returns is the radar's own
    list and is not modelled. *)
Definition virtualComponents (w : World) : World :=
  let c := component w in
  let its := items (args c) in
  let r :=
    set_radar_inputs (match its with None => [] | Some l => l end)
      (estimateHeight (args c)) (renderAll (args c)) (bufferSize (args c)) (_radar c) in
  radar_scheduleUpdate true (set_component (set_radar r c) w).

(** [schedule(queueName, job)]: the job is queued under [this.token]. *)
Definition schedule (queueName : string) (job : Job) (w : World) : World :=
  set_jobs (jobs w ++ [(queueName, job)]) w.

Definition didInsertMainContainer (w : World) : World :=
  schedule "sync" StartJob w.

(** A timer handle is a positive integer, so [if (this._nextSendActions)]
    holds exactly when the field is not [null]. *)
Definition willDestroyMainContainer (w : World) : World :=
  let w := set_component (set_token_cancelled true (component w)) w in
  let w := radar_destroy w in
  match _nextSendActions (component w) with
  | Some id => clearTimeout id w
  | None => w
  end.

(** *** The environment *)

(** Modelled from the spec: the scheduler (the ember-raf-scheduler package,
    which is not part of this repository).  Section 5: scheduled work runs
    later, one job after the other, and a job whose token was cancelled in
    the meantime does not run. *)
Definition run_next_job (crossings : list (string * Z)) (w : World) : World :=
  match jobs w with
  | [] => w
  | (_, j) :: rest =>
      let w := set_jobs rest w in
      if token_cancelled (component w) then w
      else match j with
           | StartJob => radar_start crossings w
           | UpdateJob => radar_update crossings w
           end
  end.

(** The window runs the callback of an armed timer once and forgets it. *)
Definition timer_fires (id : positive) (w : World) : World :=
  if bool_decide (id ∈ timers w)
  then sendActionsCallback (set_timers (filter (fun t => t <> id) (timers w)) w)
  else w.

(** Everything that can happen to a constructed component. *)
Inductive Event : Type :=
| DidInsert                                  (* the main container is inserted *)
| WillDestroy                                (* the main container is torn down *)
| Render                                     (* the template reads virtualComponents *)
| ArgsChanged (a : Args)                     (* the host passes new arguments *)
| Scroll                                     (* the radar hears a scroll or resize *)
| RunJob (crossings : list (string * Z))     (* the scheduler runs its next job *)
| TimerFires (id : positive).                (* the window runs a timer *)

Definition step (w : World) (e : Event) : World :=
  match e with
  | DidInsert => didInsertMainContainer w
  | WillDestroy => willDestroyMainContainer w
  | Render => virtualComponents w
  | ArgsChanged a => set_component (set_args a (component w)) w
  | Scroll => radar_scheduleUpdate false w
  | RunJob crossings => run_next_job crossings w
  | TimerFires id => timer_fires id w
  end.

Definition run (es : list Event) (w : World) : World := fold_left step es w.

(** *** Vocabulary of the statements *)

(** The key of the item at index [i] equals [id]. *)
Definition key_matches (its : list Item) (keyPath id : string) (i : nat) : Prop :=
  keyForItem (objectAt (Some its) (Z.of_nat i)) keyPath (Z.of_nat i) = id.

(** The worlds a component constructed from [ar] can be in. *)
Inductive reachable (ar : Args) : World -> Prop :=
| reachable_constructor : reachable ar (constructor ar)
| reachable_step w e : reachable ar w -> reachable ar (step w e).

Definition is_new_radar (e : Effect) : bool :=
  match e with EffNewRadar _ => true | _ => false end.

Definition is_batch (e : Effect) : bool :=
  match e with EffBatch _ => true | _ => false end.

(** The handles a nullable timer field stands for. *)
Definition armed (t : option positive) : list positive :=
  match t with Some id => [id] | None => [] end.

(** The timer field and the window agree: while the token is live the armed
    timers are exactly the handle in [_nextSendActions]; after teardown no
    timer is armed and the radar is destroyed. *)
Definition timers_tracked (w : World) : Prop :=
  let c := component w in
  (token_cancelled c = false -> timers w = armed (_nextSendActions c))
  /\ (token_cancelled c = true -> timers w = [] /\ radar_mode (_radar c) = destroyed).

(** What the constructor wires up and nothing later rewires. *)
Definition same_wiring (w0 w : World) : Prop :=
  _hasAction (component w) = _hasAction (component w0)
  /\ radar_sendAction (_radar (component w)) = radar_sendAction (_radar (component w0))
  /\ radar_class (_radar (component w)) = radar_class (_radar (component w0))
  /\ filter is_new_radar (trace w) = filter is_new_radar (trace w0).




Definition is_throw (e : Effect) : bool :=
  match e with EffThrow _ => true | _ => false end.

(** The state teardown leaves behind. *)
Definition torn_down (w : World) : Prop :=
  token_cancelled (component w) = true
  /\ radar_mode (_radar (component w)) = destroyed
  /\ timers w = [].

(** Every waiting action is one the constructor's snapshot allows; and a
    component constructed without any handler stays silent. *)
Definition snapshot_rules (ar : Args) (w : World) : Prop :=
  (forall a i, (a, i) ∈ _scheduledActions (component w) ->
     exists has, _hasAction (component (constructor ar)) = Some has
                 /\ has !! a = Some true)
  /\ (_hasAction (component (constructor ar)) = None ->
      _nextSendActions (component w) = None
      /\ timers w = []
      /\ filter is_batch (trace w) = []).

(** Nothing is queued, armed or running: the state of a radar that never
    started. *)
Definition dormant (w : World) : Prop :=
  jobs w = []
  /\ timers w = []
  /\ radar_mode (_radar (component w)) <> started.

(** The events between construction and insertion that leave the arguments
    alone. *)
Definition before_insertion (e : Event) : Prop := e = Render \/ e = Scroll.

(** The component as the constructor leaves it, up to renders: nothing
    queued or armed, the radar idle and holding the configured buffer
    size. *)
Definition awaiting_insertion (ar : Args) (w : World) : Prop :=
  jobs w = []
  /\ timers w = []
  /\ radar_mode (_radar (component w)) = idle
  /\ token_cancelled (component w) = false
  /\ args (component w) = ar
  /\ radar_bufferSize (_radar (component w)) = bufferSize ar.

(** The settings the radar is constructed with and never given again. *)
Definition radar_config (r : Radar) :=
  (radar_class r, radar_startingIndex r, radar_key r, radar_containerSelector r,
   radar_renderFromLast r, radar_shouldRecycle r, radar_occlusionTagName r,
   radar_initialRenderCount r).

(** The four inputs the [virtualComponents] getter writes. *)
Definition radar_inputs (r : Radar) :=
  (radar_items r, radar_estimateHeight r, radar_renderAll r, radar_bufferSize r).

(** What the getter writes for the arguments [a]. *)
Definition inputs_of (a : Args) :=
  (nullish (items a) [], estimateHeight a, renderAll a, bufferSize a).

(** The arguments in force at the last [Render] of [es], given the current
    arguments and those of the last render before [es]. *)
Fixpoint rendered_args (es : list Event) (current rendered : Args) : Args :=
  match es with
  | [] => rendered
  | ArgsChanged a :: es' => rendered_args es' a rendered
  | Render :: es' => rendered_args es' current current
  | _ :: es' => rendered_args es' current rendered
  end.

(** The radar of [w'] is that of [w] but for its lifecycle state, and the
    arguments and the key path are the same. *)
Definition same_radar (w w' : World) : Prop :=
  set_radar_mode idle (_radar (component w')) = set_radar_mode idle (_radar (component w))
  /\ args (component w') = args (component w)
  /\ key (component w') = key (component w).

(** While the timer field is set actions are waiting; and with the field
    [null] actions are waiting only if a timer callback threw. *)
Definition armed_means_waiting (w : World) : Prop :=
  (forall t, _nextSendActions (component w) = Some t ->
     _scheduledActions (component w) <> [])
  /\ (filter is_throw (trace w) = [] ->
      _nextSendActions (component w) = None ->
      _scheduledActions (component w) = []).

(** The four actions a radar reports. *)
Definition edge_actions : list string :=
  ["lastReached"; "firstReached"; "lastVisibleChanged"; "firstVisibleChanged"].

(** * Properties *)

(** ** The starting index *)

Lemma scanForKey_no_match its id keyPath fuel i :
  (forall j, (i <= j < i + fuel)%nat -> ~ key_matches its keyPath id j) ->
  scanForKey its id keyPath i fuel = 0%Z.
Proof.
  revert i. induction fuel as [|fuel IH]; intros i Hno; simpl; [reflexivity|].
  destruct (String.eqb_spec
    (keyForItem (objectAt (Some its) (Z.of_nat i)) keyPath (Z.of_nat i)) id) as [Heq|_].
  - exfalso. apply (Hno i); [lia | exact Heq].
  - apply IH. intros j Hj. apply Hno. lia.
Qed.

Lemma scanForKey_first_match its id keyPath fuel i m :
  (i <= m < i + fuel)%nat ->
  key_matches its keyPath id m ->
  (forall j, (i <= j < m)%nat -> ~ key_matches its keyPath id j) ->
  scanForKey its id keyPath i fuel = Z.of_nat m.
Proof.
  revert i. induction fuel as [|fuel IH]; intros i Hm Hmatch Hbefore; simpl; [lia|].
  destruct (String.eqb_spec
    (keyForItem (objectAt (Some its) (Z.of_nat i)) keyPath (Z.of_nat i)) id) as [Heq|Hne].
  - destruct (decide (i = m)) as [->|Him]; [reflexivity|].
    exfalso. apply (Hbefore i); [lia | exact Heq].
  - destruct (decide (i = m)) as [->|Him]; [contradiction|].
    apply IH; [lia | exact Hmatch | intros j Hj; apply Hbefore; lia].
Qed.

(** C1.  With an [idForFirstItem] given, the starting index is the smallest
    index whose item has that key, and 0 when no item has it; this is the
    index the constructor hands to the radar. *)
Theorem calculateStartingIndex_least_match (its : list Item) (id keyPath : string)
    (fromLast : bool) :
  (forall i, (i < length its)%nat ->
     key_matches its keyPath id i ->
     (forall j, (j < i)%nat -> ~ key_matches its keyPath id j) ->
     calculateStartingIndex its (Some id) keyPath fromLast = Z.of_nat i)
  /\ ((forall i, (i < length its)%nat -> ~ key_matches its keyPath id i) ->
      calculateStartingIndex its (Some id) keyPath fromLast = 0%Z)
  /\ (forall ar,
      radar_startingIndex (_radar (component (constructor ar)))
      = calculateStartingIndex (nullish (arg_items ar) []) (arg_idForFirstItem ar)
          "@identity" (nullish (arg_renderFromLast ar) false)).
Proof.
  split; [|split].
  - intros i Hi Hmatch Hleast. unfold calculateStartingIndex.
    apply scanForKey_first_match; [lia | exact Hmatch | intros j Hj; apply Hleast; lia].
  - intros Hno. unfold calculateStartingIndex.
    apply scanForKey_no_match. intros j Hj. apply Hno. lia.
  - intros ar. unfold constructor, items, idForFirstItem, renderFromLast, nullish.
    destruct (_ || _); reflexivity.
Qed.

(** C8.  Without an [idForFirstItem] and with [renderFromLast], the starting
    index is [items.length - 1]; for the empty collection that is -1, which
    is the index of nothing. *)
Theorem calculateStartingIndex_from_last (its : list Item) (keyPath : string) :
  calculateStartingIndex its None keyPath true = (Z.of_nat (length its) - 1)%Z
  /\ calculateStartingIndex [] None keyPath true = (-1)%Z
  /\ (forall i : nat, calculateStartingIndex [] None keyPath true <> Z.of_nat i).
Proof.
  unfold calculateStartingIndex. simpl. repeat split. intros i. lia.
Qed.

(** ** Runs and reachable worlds *)

Lemma run_app es1 es2 w : run (es1 ++ es2) w = run es2 (run es1 w).
Proof. unfold run. apply fold_left_app. Qed.

Lemma reachable_run ar es w : reachable ar w -> reachable ar (run es w).
Proof.
  revert w. induction es as [|e es IH]; intros w Hw; simpl; [exact Hw|].
  apply IH. constructor. exact Hw.
Qed.

(** An invariant of [sendAction] is an invariant of a radar update's
    reports. *)
Lemma fold_sendAction_preserves (P : World -> Prop) :
  (forall a i w, P w -> P (sendAction a i w)) ->
  forall cs w, P w ->
    P (fold_left (fun w '(action, index) => sendAction action index w) cs w).
Proof.
  intros Hstep cs. induction cs as [|[a i] cs IH]; intros w Hw; simpl; [exact Hw|].
  apply IH, Hstep, Hw.
Qed.

Ltac open_world w :=
  let c := fresh "c" in
  let r := fresh "r" in
  destruct w as [c ? ? ? ?]; destruct c as [? ? ? ? ? r ? ? ? ? ? ?]; destruct r.

(** ** The constructor's wiring is permanent *)

Lemma same_wiring_refl w : same_wiring w w.
Proof. repeat split. Qed.

Lemma same_wiring_trans w0 w1 w2 :
  same_wiring w0 w1 -> same_wiring w1 w2 -> same_wiring w0 w2.
Proof.
  intros (H1 & H2 & H3 & H4) (K1 & K2 & K3 & K4).
  repeat split; congruence.
Qed.

Lemma same_wiring_scheduleSendAction a i w : same_wiring w (_scheduleSendAction a i w).
Proof.
  open_world w. unfold _scheduleSendAction, same_wiring. simpl.
  destruct _nextSendActions0; simpl; repeat split.
Qed.

Lemma same_wiring_sendAction a i w : same_wiring w (sendAction a i w).
Proof.
  unfold sendAction. destruct (_hasAction (component w)) as [has|].
  - destruct (nullish (has !! a) false).
    + apply same_wiring_scheduleSendAction.
    + apply same_wiring_refl.
  - apply same_wiring_refl.
Qed.

Lemma same_wiring_emit e w : is_new_radar e = false -> same_wiring w (emit e w).
Proof.
  intros He. unfold same_wiring, emit. simpl. repeat split.
  rewrite filter_app. simpl. rewrite filter_cons_False, filter_nil, app_nil_r.
  - reflexivity.
  - rewrite He. simpl. tauto.
Qed.

Lemma same_wiring_radar_update cs w : same_wiring w (radar_update cs w).
Proof.
  unfold radar_update. destruct (radar_mode _); try apply same_wiring_refl.
  apply same_wiring_trans with (emit EffUpdate w).
  - apply same_wiring_emit. reflexivity.
  - destruct (radar_sendAction _); [|apply same_wiring_refl].
    apply (fold_sendAction_preserves (same_wiring (emit EffUpdate w))).
    + intros a i w' Hw'. eapply same_wiring_trans; [exact Hw'|].
      apply same_wiring_sendAction.
    + apply same_wiring_refl.
Qed.

Lemma same_wiring_radar_start cs w : same_wiring w (radar_start cs w).
Proof.
  unfold radar_start. destruct (radar_mode _) eqn:Hm; try apply same_wiring_refl.
  destruct (Qle_bool _ _).
  - apply same_wiring_emit. reflexivity.
  - eapply same_wiring_trans; [|apply same_wiring_radar_update].
    eapply same_wiring_trans; [|apply same_wiring_emit; reflexivity].
    open_world w. repeat split.
Qed.

Lemma same_wiring_radar_scheduleUpdate force w :
  same_wiring w (radar_scheduleUpdate force w).
Proof.
  unfold radar_scheduleUpdate. destruct (radar_mode _); try apply same_wiring_refl.
  destruct (existsb _ _); repeat split.
Qed.

(** The two ways the timer callback ends. *)
Lemma sendActionsCallback_cases w :
  let c := set_nextSendActions None (component w) in
  exists calls completed,
    forEach (items (args c)) (key c) (args c) (_scheduledActions c) = (calls, completed)
    /\ sendActionsCallback w
       = if completed
         then emit (EffBatch calls) (set_component (set_scheduledActions [] c) w)
         else emit (EffThrow calls) (set_component c w).
Proof.
  intros c. unfold sendActionsCallback. fold c.
  destruct (forEach (items (args c)) (key c) (args c) (_scheduledActions c))
    as [calls completed].
  exists calls, completed. split; reflexivity.
Qed.

(** What the timer callback leaves alone, resets, and may empty. *)
Lemma sendActionsCallback_fields w :
  let w' := sendActionsCallback w in
  timers w' = timers w
  /\ next_timer w' = next_timer w
  /\ jobs w' = jobs w
  /\ _nextSendActions (component w') = None
  /\ token_cancelled (component w') = token_cancelled (component w)
  /\ _radar (component w') = _radar (component w)
  /\ args (component w') = args (component w)
  /\ key (component w') = key (component w)
  /\ _hasAction (component w') = _hasAction (component w)
  /\ (_scheduledActions (component w') = []
      \/ _scheduledActions (component w') = _scheduledActions (component w)).
Proof.
  destruct (sendActionsCallback_cases w) as (calls & completed & _ & Heq).
  simpl. rewrite Heq. destruct completed; open_world w; simpl; repeat split; auto.
Qed.

Lemma same_wiring_timer_fires id w : same_wiring w (timer_fires id w).
Proof.
  unfold timer_fires. case_bool_decide; [|apply same_wiring_refl].
  destruct (sendActionsCallback_cases
              (set_timers (filter (fun t => t <> id) (timers w)) w))
    as (calls & completed & _ & ->).
  destruct completed;
    (eapply same_wiring_trans; [|apply same_wiring_emit; reflexivity]); repeat split.
Qed.

Lemma same_wiring_step w e : same_wiring w (step w e).
Proof.
  destruct e; simpl.
  - repeat split.
  - unfold willDestroyMainContainer.
    destruct (_nextSendActions _); repeat split.
  - unfold virtualComponents.
    eapply same_wiring_trans; [|apply same_wiring_radar_scheduleUpdate].
    repeat split.
  - repeat split.
  - apply same_wiring_radar_scheduleUpdate.
  - unfold run_next_job. destruct (jobs w) as [|[q j] rest]; [apply same_wiring_refl|].
    apply same_wiring_trans with (set_jobs rest w); [repeat split|].
    destruct (token_cancelled _); [apply same_wiring_refl|].
    destruct j; [apply same_wiring_radar_start | apply same_wiring_radar_update].
  - apply same_wiring_timer_fires.
Qed.

Lemma reachable_same_wiring ar w : reachable ar w -> same_wiring (constructor ar) w.
Proof.
  induction 1 as [|w e _ IH]; [apply same_wiring_refl|].
  eapply same_wiring_trans; [exact IH | apply same_wiring_step].
Qed.

(** C7.  The radar class is chosen from [staticHeight] as the constructor
    runs; whatever happens afterwards, new arguments included, the component
    keeps a radar of that class and no second radar is ever created. *)
Theorem radar_class_selected_once (ar : Args) (es : list Event) :
  let cls := if nullish (arg_staticHeight ar) false then StaticRadar else DynamicRadar in
  radar_class (_radar (component (constructor ar))) = cls
  /\ radar_class (_radar (component (run es (constructor ar)))) = cls
  /\ filter is_new_radar (trace (run es (constructor ar))) = [EffNewRadar cls].
Proof.
  intros cls.
  assert (Hinit : radar_class (_radar (component (constructor ar))) = cls).
  { unfold constructor. destruct (_ || _); reflexivity. }
  destruct (reachable_same_wiring ar (run es (constructor ar)))
    as (_ & _ & Hclass & Htrace).
  { apply reachable_run. constructor. }
  split; [exact Hinit|]. split.
  - rewrite Hclass. exact Hinit.
  - rewrite Htrace. reflexivity.
Qed.

(** ** The timer field tracks the window *)

Lemma timers_tracked_scheduleSendAction a i w :
  token_cancelled (component w) = false /\ timers_tracked w ->
  token_cancelled (component (_scheduleSendAction a i w)) = false
  /\ timers_tracked (_scheduleSendAction a i w).
Proof.
  open_world w. unfold timers_tracked, _scheduleSendAction. simpl.
  intros (Htok & Hlive & Hdead).
  destruct _nextSendActions0 as [t|]; simpl.
  - repeat split; try tauto; try discriminate; congruence.
  - repeat split; try discriminate; try congruence.
    intros _. rewrite (Hlive Htok). reflexivity.
Qed.

Lemma timers_tracked_sendAction a i w :
  token_cancelled (component w) = false /\ timers_tracked w ->
  token_cancelled (component (sendAction a i w)) = false
  /\ timers_tracked (sendAction a i w).
Proof.
  intros Hw. unfold sendAction.
  destruct (_hasAction (component w)) as [has|]; [|exact Hw].
  destruct (nullish (has !! a) false); [|exact Hw].
  apply timers_tracked_scheduleSendAction, Hw.
Qed.

Lemma timers_tracked_radar_update cs w :
  token_cancelled (component w) = false /\ timers_tracked w ->
  token_cancelled (component (radar_update cs w)) = false
  /\ timers_tracked (radar_update cs w).
Proof.
  intros Hw. unfold radar_update.
  destruct (radar_mode _); try exact Hw.
  assert (Hemit : token_cancelled (component (emit EffUpdate w)) = false
                  /\ timers_tracked (emit EffUpdate w)) by exact Hw.
  destruct (radar_sendAction _); [|exact Hemit].
  apply (fold_sendAction_preserves
           (fun w => token_cancelled (component w) = false /\ timers_tracked w));
    [apply timers_tracked_sendAction | exact Hemit].
Qed.

Lemma timers_tracked_radar_start cs w :
  token_cancelled (component w) = false /\ timers_tracked w ->
  timers_tracked (radar_start cs w).
Proof.
  intros Hw. unfold radar_start.
  destruct (radar_mode _) eqn:Hm; try apply Hw.
  destruct (Qle_bool _ _); [apply Hw|].
  apply timers_tracked_radar_update.
  open_world w. unfold timers_tracked in *. simpl in *.
  destruct Hw as (Htok & Hlive & Hdead).
  repeat split; try assumption; congruence.
Qed.

Lemma timers_tracked_radar_scheduleUpdate force w :
  timers_tracked w -> timers_tracked (radar_scheduleUpdate force w).
Proof.
  intros Hw. unfold radar_scheduleUpdate.
  destruct (radar_mode _); try exact Hw.
  destruct (existsb _ _); exact Hw.
Qed.

Lemma timers_tracked_step w e : timers_tracked w -> timers_tracked (step w e).
Proof.
  intros Hw. destruct e; simpl.
  - exact Hw.
  - open_world w. unfold timers_tracked, willDestroyMainContainer in *. simpl in *.
    destruct Hw as (Hlive & Hdead).
    destruct _nextSendActions0 as [t|]; simpl.
    + repeat split; try discriminate.
      destruct token_cancelled0.
      * destruct Hdead as [-> _]; reflexivity.
      * rewrite Hlive by reflexivity. simpl. rewrite filter_cons_False, filter_nil; tauto.
    + repeat split; try discriminate; try tauto.
      destruct token_cancelled0; [apply Hdead | apply Hlive]; reflexivity.
  - unfold virtualComponents. apply timers_tracked_radar_scheduleUpdate.
    open_world w. exact Hw.
  - open_world w. exact Hw.
  - apply timers_tracked_radar_scheduleUpdate, Hw.
  - unfold run_next_job. destruct (jobs w) as [|[q j] rest]; [exact Hw|].
    assert (Hrest : timers_tracked (set_jobs rest w)) by exact Hw.
    destruct (token_cancelled (component (set_jobs rest w))) eqn:Htok; [exact Hrest|].
    destruct j.
    + apply timers_tracked_radar_start. split; assumption.
    + apply timers_tracked_radar_update. split; assumption.
  - unfold timer_fires. case_bool_decide as Hin; [|exact Hw].
    destruct (sendActionsCallback_fields
                (set_timers (filter (fun t => t <> id) (timers w)) w))
      as (Hts & _ & _ & Hnext & Htok & Hradar & _).
    destruct Hw as (Hlive & Hdead). unfold timers_tracked.
    rewrite Hts, Hnext, Htok, Hradar. simpl.
    destruct (token_cancelled (component w)).
    + destruct Hdead as [Hnil _]; [reflexivity|]. rewrite Hnil in Hin. inversion Hin.
    + rewrite Hlive in * by reflexivity.
      destruct (_nextSendActions (component w)) as [t|]; simpl in *; [|inversion Hin].
      apply list_elem_of_singleton in Hin. subst id.
      rewrite filter_cons_False, filter_nil by tauto.
      split; [reflexivity | discriminate].
Qed.

Lemma reachable_timers_tracked ar w : reachable ar w -> timers_tracked w.
Proof.
  induction 1 as [|w e _ IH]; [|apply timers_tracked_step, IH].
  unfold timers_tracked, constructor. simpl. repeat split; discriminate.
Qed.


(** ** Scheduling edge actions *)





(** With the items [null] the first pair already throws. *)
Lemma forEach_null keyPath a entry rest :
  forEach None keyPath a (entry :: rest) = ([], false).
Proof. destruct entry. reflexivity. Qed.


Lemma timer_fires_throws t w :
  timers w = [t] ->
  items (args (component w)) = None ->
  _scheduledActions (component w) <> [] ->
  trace (timer_fires t w) = trace w ++ [EffThrow []]
  /\ _scheduledActions (component (timer_fires t w)) = _scheduledActions (component w)
  /\ _nextSendActions (component (timer_fires t w)) = None
  /\ timers (timer_fires t w) = [].
Proof.
  intros Hts Hitems Hwaiting. unfold timer_fires. rewrite Hts.
  rewrite bool_decide_eq_true_2 by apply list_elem_of_singleton, eq_refl.
  unfold sendActionsCallback.
  open_world w. simpl in *. rewrite Hitems.
  destruct _scheduledActions0 as [|entry rest]; [contradiction|].
  rewrite forEach_null. simpl.
  rewrite filter_cons_False, filter_nil by tauto.
  repeat split.
Qed.



(** ** Teardown *)

Lemma torn_down_step w e : torn_down w -> torn_down (step w e) /\ trace (step w e) = trace w.
Proof.
  intros (Htok & Hmode & Hts). destruct e; simpl.
  - repeat split; assumption.
  - open_world w. unfold torn_down, willDestroyMainContainer. simpl in *.
    subst. destruct _nextSendActions0; simpl; repeat split.
  - open_world w. unfold torn_down, virtualComponents, radar_scheduleUpdate. simpl in *.
    subst. repeat split.
  - repeat split; assumption.
  - unfold radar_scheduleUpdate. rewrite Hmode. repeat split; assumption.
  - unfold run_next_job. destruct (jobs w) as [|[q j] rest]; [repeat split; assumption|].
    simpl. rewrite Htok. repeat split; assumption.
  - unfold timer_fires. rewrite Hts.
    rewrite bool_decide_eq_false_2 by apply not_elem_of_nil.
    repeat split; assumption.
Qed.

Lemma torn_down_run es w : torn_down w -> trace (run es w) = trace w.
Proof.
  revert w. induction es as [|e es IH]; intros w Hw; simpl; [reflexivity|].
  destruct (torn_down_step w e Hw) as [Hnext Htrace].
  rewrite (IH _ Hnext). exact Htrace.
Qed.

(** C4.  [willDestroyMainContainer] cancels the token, destroys the radar and
    clears the pending dispatch timer; from then on nothing the environment
    does makes an update phase run or a handler be called: the trace of
    effects never grows again. *)
Theorem teardown_silences_component (ar : Args) (before after : list Event) :
  let w := run before (constructor ar) in
  let wd := willDestroyMainContainer w in
  token_cancelled (component wd) = true
  /\ radar_mode (_radar (component wd)) = destroyed
  /\ timers wd = []
  /\ trace wd = trace w
  /\ trace (run after wd) = trace w.
Proof.
  intros w wd.
  assert (Hw : timers_tracked w).
  { apply (reachable_timers_tracked ar), reachable_run. constructor. }
  assert (Hwd : timers_tracked wd) by apply (timers_tracked_step w WillDestroy Hw).
  assert (Htok : token_cancelled (component wd) = true).
  { unfold wd, willDestroyMainContainer.
    destruct (_nextSendActions _); reflexivity. }
  assert (Htrace : trace wd = trace w).
  { unfold wd, willDestroyMainContainer.
    destruct (_nextSendActions _); reflexivity. }
  destruct Hwd as (_ & Hdead). destruct (Hdead Htok) as [Hts Hmode].
  repeat split; try assumption.
  rewrite torn_down_run; [exact Htrace | repeat split; assumption].
Qed.

(** ** The handler snapshot *)

Lemma hasActionRecord_true a b c d name :
  hasActionRecord a b c d !! name = Some true ->
  (name = "lastReached" /\ a = true) \/ (name = "firstReached" /\ b = true)
  \/ (name = "lastVisibleChanged" /\ c = true)
  \/ (name = "firstVisibleChanged" /\ d = true).
Proof.
  unfold hasActionRecord. rewrite !lookup_insert, lookup_empty.
  repeat case_decide; intros Heq; try discriminate; inversion Heq; subst; auto 6.
Qed.

Lemma constructor_hasAction ar has name :
  _hasAction (component (constructor ar)) = Some has ->
  has !! name = Some true ->
  truthy (arg_get ar name) = true.
Proof.
  unfold constructor. destruct (_ || _); simpl; [|discriminate].
  intros [= <-] Hname.
  apply hasActionRecord_true in Hname.
  destruct Hname as [[-> H]|[[-> H]|[[-> H]|[-> H]]]]; exact H.
Qed.

Lemma constructor_without_handlers ar :
  truthy (arg_get ar "lastReached") = false ->
  truthy (arg_get ar "firstReached") = false ->
  truthy (arg_get ar "lastVisibleChanged") = false ->
  truthy (arg_get ar "firstVisibleChanged") = false ->
  _hasAction (component (constructor ar)) = None
  /\ radar_sendAction (_radar (component (constructor ar))) = false.
Proof.
  intros Ha Hb Hc Hd. unfold constructor. rewrite Ha, Hb, Hc, Hd. split; reflexivity.
Qed.

Lemma constructor_wiring_agrees ar :
  radar_sendAction (_radar (component (constructor ar))) = true
  <-> _hasAction (component (constructor ar)) <> None.
Proof.
  unfold constructor. destruct (_ || _); simpl; split; congruence.
Qed.

Lemma scheduleSendAction_appends a i w :
  _scheduledActions (component (_scheduleSendAction a i w))
  = _scheduledActions (component w) ++ [(a, i)].
Proof.
  open_world w. unfold _scheduleSendAction. simpl.
  destruct _nextSendActions0; reflexivity.
Qed.

Lemma snapshot_rules_emit ar e w :
  is_batch e = false -> snapshot_rules ar w -> snapshot_rules ar (emit e w).
Proof.
  intros He (Hsched & Hquiet). split; [exact Hsched|].
  intros Hnone. destruct (Hquiet Hnone) as (Hn & Hts & Htr).
  repeat split; try assumption.
  unfold emit. simpl. rewrite filter_app, Htr. simpl.
  rewrite filter_cons_False, filter_nil; [reflexivity|].
  rewrite He. simpl. tauto.
Qed.

Lemma snapshot_rules_sendAction ar a i w :
  same_wiring (constructor ar) w /\ snapshot_rules ar w ->
  same_wiring (constructor ar) (sendAction a i w) /\ snapshot_rules ar (sendAction a i w).
Proof.
  intros [Hwire Hrules]. split.
  { eapply same_wiring_trans; [exact Hwire | apply same_wiring_sendAction]. }
  destruct Hwire as (Hhas & _). destruct Hrules as (Hsched & Hquiet).
  unfold sendAction.
  destruct (_hasAction (component w)) as [has|] eqn:Hw; [|split; assumption].
  destruct (has !! a) as [[|]|] eqn:Ha; simpl; try (split; assumption).
  split.
  - intros a' i'. rewrite scheduleSendAction_appends, elem_of_app.
    intros [Hin|Hin]; [apply (Hsched a' i' Hin)|].
    apply list_elem_of_singleton in Hin. injection Hin as -> ->.
    exists has. split; [congruence | exact Ha].
  - intros Hnone. congruence.
Qed.

Lemma snapshot_rules_radar_update ar cs w :
  same_wiring (constructor ar) w /\ snapshot_rules ar w ->
  snapshot_rules ar (radar_update cs w).
Proof.
  intros [Hwire Hrules]. unfold radar_update.
  destruct (radar_mode _); try exact Hrules.
  assert (Hemit : same_wiring (constructor ar) (emit EffUpdate w)
                  /\ snapshot_rules ar (emit EffUpdate w)).
  { split.
    - eapply same_wiring_trans; [exact Hwire | apply same_wiring_emit; reflexivity].
    - apply snapshot_rules_emit; [reflexivity | exact Hrules]. }
  destruct (radar_sendAction _); [|apply Hemit].
  apply (fold_sendAction_preserves
           (fun w => same_wiring (constructor ar) w /\ snapshot_rules ar w));
    [apply snapshot_rules_sendAction | exact Hemit].
Qed.

Lemma snapshot_rules_radar_start ar cs w :
  same_wiring (constructor ar) w /\ snapshot_rules ar w ->
  snapshot_rules ar (radar_start cs w).
Proof.
  intros [Hwire Hrules]. unfold radar_start.
  destruct (radar_mode _) eqn:Hm; try exact Hrules.
  destruct (Qle_bool _ _).
  - apply snapshot_rules_emit; [reflexivity | exact Hrules].
  - apply snapshot_rules_radar_update. split.
    + eapply same_wiring_trans; [exact Hwire|].
      eapply same_wiring_trans; [|apply same_wiring_emit; reflexivity].
      open_world w. repeat split.
    + apply snapshot_rules_emit; [reflexivity|].
      open_world w. exact Hrules.
Qed.

Lemma snapshot_rules_radar_scheduleUpdate ar force w :
  snapshot_rules ar w -> snapshot_rules ar (radar_scheduleUpdate force w).
Proof.
  intros Hw. unfold radar_scheduleUpdate.
  destruct (radar_mode _); try exact Hw.
  destruct (existsb _ _); exact Hw.
Qed.

Lemma snapshot_rules_step ar w e :
  same_wiring (constructor ar) w -> snapshot_rules ar w -> snapshot_rules ar (step w e).
Proof.
  intros Hwire Hrules. destruct e; simpl.
  - exact Hrules.
  - destruct Hrules as (Hsched & Hquiet).
    open_world w. unfold snapshot_rules, willDestroyMainContainer in *. simpl in *.
    destruct _nextSendActions0 as [t|]; simpl; split; try assumption.
    intros Hnone. destruct (Hquiet Hnone) as (Hn & _). discriminate.
  - unfold virtualComponents. apply snapshot_rules_radar_scheduleUpdate.
    open_world w. exact Hrules.
  - open_world w. exact Hrules.
  - apply snapshot_rules_radar_scheduleUpdate, Hrules.
  - unfold run_next_job. destruct (jobs w) as [|[q j] rest]; [exact Hrules|].
    assert (Hrest : same_wiring (constructor ar) (set_jobs rest w)
                    /\ snapshot_rules ar (set_jobs rest w)) by (split; assumption).
    destruct (token_cancelled _); [apply Hrest|].
    destruct j.
    + apply snapshot_rules_radar_start, Hrest.
    + apply snapshot_rules_radar_update, Hrest.
  - unfold timer_fires. case_bool_decide as Hin; [|exact Hrules].
    destruct Hrules as (Hsched & Hquiet).
    destruct (sendActionsCallback_fields
                (set_timers (filter (fun t => t <> id) (timers w)) w))
      as (_ & _ & _ & _ & _ & _ & _ & _ & _ & Hlist).
    split.
    + intros a i Hai. destruct Hlist as [Hnil | Hsame].
      * rewrite Hnil in Hai. inversion Hai.
      * rewrite Hsame in Hai. apply (Hsched a i Hai).
    + intros Hnone. destruct (Hquiet Hnone) as (_ & Hts & _).
      rewrite Hts in Hin. inversion Hin.
Qed.

Lemma reachable_snapshot_rules ar w : reachable ar w -> snapshot_rules ar w.
Proof.
  induction 1 as [|w e Hw IH].
  - split.
    + unfold constructor. simpl. intros a i Hai. inversion Hai.
    + intros _. repeat split.
  - apply snapshot_rules_step; [apply reachable_same_wiring, Hw | exact IH].
Qed.

(** C9.  The constructor's snapshot of the four handler arguments decides
    for good what can be dispatched.  Without any handler at construction
    the radar never gets a [sendAction], nothing is ever scheduled, no timer
    is armed and no batch goes out.  An action whose handler was absent at
    construction is dropped by [sendAction] and never waits in the list,
    whatever arguments arrive later. *)
Theorem handlers_fixed_at_construction (ar : Args) (es : list Event) :
  let w := run es (constructor ar) in
  _hasAction (component w) = _hasAction (component (constructor ar))
  /\ (truthy (arg_get ar "lastReached") = false ->
      truthy (arg_get ar "firstReached") = false ->
      truthy (arg_get ar "lastVisibleChanged") = false ->
      truthy (arg_get ar "firstVisibleChanged") = false ->
      radar_sendAction (_radar (component w)) = false
      /\ _scheduledActions (component w) = []
      /\ timers w = []
      /\ filter is_batch (trace w) = [])
  /\ (forall a i, truthy (arg_get ar a) = false ->
      sendAction a i w = w /\ (a, i) ∉ _scheduledActions (component w)).
Proof.
  intros w.
  assert (Hreach : reachable ar w) by (apply reachable_run; constructor).
  destruct (reachable_same_wiring ar w Hreach) as (Hhas & Hsend & _).
  destruct (reachable_snapshot_rules ar w Hreach) as (Hsched & Hquiet).
  split; [exact Hhas|]. split.
  - intros Ha Hb Hc Hd.
    destruct (constructor_without_handlers ar Ha Hb Hc Hd) as [Hnone Hoff].
    destruct (Hquiet Hnone) as (_ & Hts & Htr).
    repeat split; try assumption; try congruence.
    destruct (_scheduledActions (component w)) as [|[a i] l] eqn:Hl; [reflexivity|].
    destruct (Hsched a i) as (has & Hsome & _); [left | congruence].
  - intros a i Ha. split.
    + unfold sendAction. rewrite Hhas.
      destruct (_hasAction (component (constructor ar))) as [has|] eqn:Hc; [|reflexivity].
      destruct (has !! a) as [[|]|] eqn:Hlook; try reflexivity.
      rewrite (constructor_hasAction ar has a Hc Hlook) in Ha. discriminate.
    + intros Hin. destruct (Hsched a i Hin) as (has & Hc & Hlook).
      rewrite (constructor_hasAction ar has a Hc Hlook) in Ha. discriminate.
Qed.

(** ** What a batch delivers *)




(** ** The emptiness test *)

(** C10.  [isEmpty], and with it [shouldYieldToInverse], holds exactly for an
    items argument that is present and has length 0.  With the argument
    absent it is false, although [virtualComponents] then gives the radar
    the empty array. *)
Theorem isEmpty_only_for_present_empty (ar : Args) :
  (isEmpty ar = true <-> exists l, arg_items ar = Some l /\ length l = 0%nat)
  /\ shouldYieldToInverse ar = isEmpty ar
  /\ (arg_items ar = None ->
      isEmpty ar = false
      /\ forall w, args (component w) = ar ->
           radar_items (_radar (component (virtualComponents w))) = []).
Proof.
  unfold shouldYieldToInverse, isEmpty, items. split; [|split].
  - destruct (arg_items ar) as [l|]; split.
    + intros Hlen. exists l. split; [reflexivity|]. apply Z.eqb_eq in Hlen. lia.
    + intros (l' & [= <-] & Hlen). rewrite Hlen. reflexivity.
    + discriminate.
    + intros (l' & Hl' & _). discriminate.
  - reflexivity.
  - intros Hno. rewrite Hno. split; [reflexivity|].
    intros w Hw. unfold virtualComponents, radar_scheduleUpdate, items.
    rewrite Hw, Hno. simpl.
    destruct (radar_mode _); try reflexivity.
    destruct (existsb _ _); reflexivity.
Qed.

(** ** The buffer size *)

Lemma dormant_step w e :
  e <> DidInsert -> dormant w -> dormant (step w e) /\ trace (step w e) = trace w.
Proof.
  intros Hne (Hjobs & Hts & Hmode). destruct e; simpl; try contradiction.
  - open_world w. unfold dormant, willDestroyMainContainer. simpl in *. subst.
    destruct _nextSendActions0; simpl; repeat split; discriminate.
  - open_world w. unfold dormant, virtualComponents, radar_scheduleUpdate. simpl in *.
    destruct radar_mode0; try contradiction; repeat split; assumption.
  - repeat split; assumption.
  - unfold radar_scheduleUpdate.
    destruct (radar_mode (_radar (component w))) eqn:Hm; try congruence;
      repeat split; try assumption; rewrite Hm; discriminate.
  - unfold run_next_job. rewrite Hjobs. repeat split; assumption.
  - unfold timer_fires. rewrite Hts.
    rewrite bool_decide_eq_false_2 by apply not_elem_of_nil.
    repeat split; assumption.
Qed.

Lemma dormant_run es w :
  DidInsert ∉ es -> dormant w -> trace (run es w) = trace w.
Proof.
  revert w. induction es as [|e es IH]; intros w Hno Hw; simpl; [reflexivity|].
  apply not_elem_of_cons in Hno as [Hne Hno].
  destruct (dormant_step w e) as [Hnext Htrace]; [congruence | exact Hw |].
  rewrite (IH _ Hno Hnext). exact Htrace.
Qed.

Lemma awaiting_insertion_run ar pre w :
  Forall before_insertion pre ->
  awaiting_insertion ar w ->
  awaiting_insertion ar (run pre w) /\ trace (run pre w) = trace w.
Proof.
  intros Hpre. revert w.
  induction Hpre as [|e pre He _ IH]; intros w Hw; simpl; [split; [exact Hw | reflexivity]|].
  assert (Hstep : awaiting_insertion ar (step w e) /\ trace (step w e) = trace w).
  { destruct Hw as (Hjobs & Hts & Hmode & Htok & Hargs & Hbuf).
    destruct He as [-> | ->]; simpl.
    - open_world w. unfold awaiting_insertion, virtualComponents, radar_scheduleUpdate.
      simpl in *. subst. repeat split.
    - unfold radar_scheduleUpdate. rewrite Hmode. repeat split; assumption. }
  destruct Hstep as [Hnext Htrace].
  destruct (IH _ Hnext) as [Hfinal Htrace'].
  split; [exact Hfinal | congruence].
Qed.

Lemma constructor_awaiting_insertion ar : awaiting_insertion ar (constructor ar).
Proof.
  unfold awaiting_insertion, constructor. simpl.
  destruct (_ || _); repeat split.
Qed.

(** C6.  A [bufferSize] that is not supplied reads as 1, and that is what the
    radar is constructed with.  A configured [bufferSize <= 0] passes through
    the component unchecked and fails the assertion of the radar's [start()]
    when the job queued at insertion runs: the failure shows once, the radar
    stays idle, and nothing starts it again. *)
Theorem bufferSize_default_and_assertion (ar : Args) :
  (arg_bufferSize ar = None ->
     bufferSize ar = (1 # 1)%Q
     /\ radar_bufferSize (_radar (component (constructor ar))) = (1 # 1)%Q)
  /\ (forall b pre cs post,
        arg_bufferSize ar = Some b ->
        (b <= 0)%Q ->
        Forall before_insertion pre ->
        DidInsert ∉ post ->
        let w := run (pre ++ [DidInsert; RunJob cs]) (constructor ar) in
        trace w = trace (constructor ar) ++ [EffAssert "bufferSize must be greater than 0"]
        /\ radar_mode (_radar (component w)) = idle
        /\ trace (run post w) = trace w).
Proof.
  split.
  - intros Hno. unfold constructor, bufferSize. rewrite Hno.
    destruct (_ || _); split; reflexivity.
  - intros b pre cs post Hb Hle Hpre Hpost w.
    destruct (awaiting_insertion_run ar pre (constructor ar) Hpre
                (constructor_awaiting_insertion ar))
      as [(Hjobs & Hts & Hmode & Htok & Hargs & Hbuf) Htrace].
    assert (Hfail : Qle_bool (radar_bufferSize (_radar (component (run pre (constructor ar))))) 0
                    = true).
    { rewrite Hbuf. unfold bufferSize. rewrite Hb. simpl. apply Qle_bool_iff, Hle. }
    assert (Hw : w = emit (EffAssert "bufferSize must be greater than 0")
                       (run pre (constructor ar))).
    { unfold w. rewrite run_app. simpl.
      unfold didInsertMainContainer, schedule, run_next_job. simpl.
      rewrite Hjobs. simpl. rewrite Htok.
      unfold radar_start. simpl. rewrite Hmode, Hfail.
      destruct (run pre (constructor ar)) as [c ts nt js tr]. simpl in *. subst js.
      reflexivity. }
    assert (Hdormant : dormant w).
    { rewrite Hw. unfold dormant, emit. simpl. rewrite Hjobs, Hts, Hmode.
      repeat split. discriminate. }
    repeat split.
    + rewrite Hw. unfold emit. simpl. rewrite Htrace. reflexivity.
    + rewrite Hw. exact Hmode.
    + apply dormant_run; assumption.
Qed.

(** * Further properties of the component *)

(** ** The starting index, continued *)

(** The loop ends either at the first matching index of its range or, with
    no match in the range, at 0. *)
Lemma scanForKey_cases its id keyPath fuel i :
  (exists m, (i <= m < i + fuel)%nat
             /\ key_matches its keyPath id m
             /\ (forall j, (i <= j < m)%nat -> ~ key_matches its keyPath id j)
             /\ scanForKey its id keyPath i fuel = Z.of_nat m)
  \/ ((forall j, (i <= j < i + fuel)%nat -> ~ key_matches its keyPath id j)
      /\ scanForKey its id keyPath i fuel = 0%Z).
Proof.
  revert i. induction fuel as [|fuel IH]; intros i.
  - right. split; [intros j Hj; lia | reflexivity].
  - simpl.
    destruct (String.eqb_spec
      (keyForItem (objectAt (Some its) (Z.of_nat i)) keyPath (Z.of_nat i)) id) as [Heq|Hne].
    + left. exists i. repeat split; [lia | lia | exact Heq | intros j Hj; lia].
    + destruct (IH (S i)) as [(m & Hm & Hmatch & Hleast & Hres)|[Hnone Hres]].
      * left. exists m. repeat split; [lia | lia | exact Hmatch | | exact Hres].
        intros j Hj. destruct (decide (j = i)) as [->|Hji]; [exact Hne|].
        apply Hleast. lia.
      * right. split; [|exact Hres].
        intros j Hj. destruct (decide (j = i)) as [->|Hji]; [exact Hne|].
        apply Hnone. lia.
Qed.

(** X1.  The starting index is an index of the collection whenever the
    collection has items.  It is out of range only for an empty collection,
    where it is 0 or -1, and it is -1 exactly for an empty collection with no
    [idForFirstItem] and [renderFromLast] set. *)
Theorem calculateStartingIndex_bounds (its : list Item) (idForFirst : option string)
    (keyPath : string) (fromLast : bool) :
  let r := calculateStartingIndex its idForFirst keyPath fromLast in
  (its <> [] -> (0 <= r < Z.of_nat (length its))%Z)
  /\ (its = [] -> r = 0%Z \/ r = (-1)%Z)
  /\ (r = (-1)%Z <-> its = [] /\ idForFirst = None /\ fromLast = true).
Proof.
  intros r.
  assert (Hscan : forall id,
            scanForKey its id keyPath 0 (length its) = 0%Z
            \/ (0 < scanForKey its id keyPath 0 (length its) < Z.of_nat (length its))%Z).
  { intros id.
    destruct (scanForKey_cases its id keyPath (length its) 0)
      as [(m & Hm & _ & _ & ->)|[_ ->]]; [|left; reflexivity].
    destruct m; [left; reflexivity | right; lia]. }
  assert (Hlen : its <> [] -> (0 < length its)%nat).
  { destruct its; [congruence | simpl; lia]. }
  unfold r, calculateStartingIndex. split; [|split].
  - intros Hne. specialize (Hlen Hne).
    destruct idForFirst as [id|].
    + destruct (Hscan id) as [-> | ?]; lia.
    + destruct fromLast; lia.
  - intros ->. destruct idForFirst as [id|]; [left; reflexivity|].
    destruct fromLast; [right | left]; reflexivity.
  - split.
    + intros Hr. destruct idForFirst as [id|].
      * destruct (Hscan id) as [H0 | H0]; rewrite Hr in H0; lia.
      * destruct fromLast; [|discriminate].
        destruct its; [repeat split | simpl in Hr; lia].
    + intros (-> & -> & ->). reflexivity.
Qed.

(** X2.  With an [idForFirstItem], a starting index other than 0 is the index
    of an item that has the key; a starting index of 0 says either that the
    first item has the key or that no item has it. *)
Theorem calculateStartingIndex_zero_or_found (its : list Item) (id keyPath : string)
    (fromLast : bool) :
  let r := calculateStartingIndex its (Some id) keyPath fromLast in
  (r <> 0%Z ->
     exists i, r = Z.of_nat i /\ (i < length its)%nat /\ key_matches its keyPath id i)
  /\ (r = 0%Z <->
        (its <> [] /\ key_matches its keyPath id 0)
        \/ (forall i, (i < length its)%nat -> ~ key_matches its keyPath id i)).
Proof.
  intros r. unfold r, calculateStartingIndex.
  destruct (scanForKey_cases its id keyPath (length its) 0)
    as [(m & Hm & Hmatch & Hleast & Hres)|[Hnone Hres]]; rewrite Hres.
  - split.
    + intros _. exists m. repeat split; [lia | exact Hmatch].
    + split.
      * intros H0. assert (m = 0%nat) as -> by lia.
        left. split; [|exact Hmatch]. destruct its; [simpl in Hm; lia | discriminate].
      * intros [[_ Hfirst] | Hno].
        -- destruct m; [reflexivity|]. exfalso. apply (Hleast 0%nat); [lia | exact Hfirst].
        -- exfalso. apply (Hno m); [lia | exact Hmatch].
  - split; [congruence|]. split; [|reflexivity].
    intros _. right. intros i Hi. apply Hnone. lia.
Qed.

(** ** What the radar is given, and when *)

Lemma same_radar_refl w : same_radar w w.
Proof. repeat split. Qed.

Lemma same_radar_trans w0 w1 w2 : same_radar w0 w1 -> same_radar w1 w2 -> same_radar w0 w2.
Proof. intros (H1 & H2 & H3) (K1 & K2 & K3). repeat split; congruence. Qed.

Lemma same_radar_projections w w' :
  same_radar w w' ->
  radar_config (_radar (component w')) = radar_config (_radar (component w))
  /\ radar_inputs (_radar (component w')) = radar_inputs (_radar (component w)).
Proof.
  intros (Hr & _ & _).
  destruct (_radar (component w')), (_radar (component w)).
  unfold set_radar_mode in Hr. simpl in Hr. injection Hr as -> -> -> -> -> -> -> -> -> -> -> -> -> ->.
  split; reflexivity.
Qed.

Lemma same_radar_scheduleSendAction a i w : same_radar w (_scheduleSendAction a i w).
Proof.
  open_world w. unfold _scheduleSendAction, same_radar. simpl.
  destruct _nextSendActions0; simpl; repeat split.
Qed.

Lemma same_radar_sendAction a i w : same_radar w (sendAction a i w).
Proof.
  unfold sendAction. destruct (_hasAction (component w)) as [has|]; [|apply same_radar_refl].
  destruct (nullish (has !! a) false);
    [apply same_radar_scheduleSendAction | apply same_radar_refl].
Qed.

Lemma same_radar_radar_update cs w : same_radar w (radar_update cs w).
Proof.
  unfold radar_update. destruct (radar_mode _); try apply same_radar_refl.
  destruct (radar_sendAction _); [|repeat split].
  apply (fold_sendAction_preserves (same_radar w)); [|repeat split].
  intros a i w' Hw'. eapply same_radar_trans; [exact Hw' | apply same_radar_sendAction].
Qed.

Lemma same_radar_radar_start cs w : same_radar w (radar_start cs w).
Proof.
  unfold radar_start. destruct (radar_mode _); try apply same_radar_refl.
  destruct (Qle_bool _ _); [repeat split|].
  eapply same_radar_trans; [|apply same_radar_radar_update].
  open_world w. repeat split.
Qed.

Lemma same_radar_radar_scheduleUpdate force w : same_radar w (radar_scheduleUpdate force w).
Proof.
  unfold radar_scheduleUpdate. destruct (radar_mode _); try apply same_radar_refl.
  destruct (existsb _ _); repeat split.
Qed.

(** Apart from a render and new arguments, nothing touches the radar's
    settings, the arguments or the key path. *)
Lemma same_radar_step w e :
  e <> Render -> (forall a, e <> ArgsChanged a) -> same_radar w (step w e).
Proof.
  intros Hrender Hargs. destruct e; simpl.
  - repeat split.
  - open_world w. unfold willDestroyMainContainer, same_radar. simpl.
    destruct _nextSendActions0; repeat split.
  - contradiction.
  - exfalso. apply (Hargs a). reflexivity.
  - apply same_radar_radar_scheduleUpdate.
  - unfold run_next_job. destruct (jobs w) as [|[q j] rest]; [apply same_radar_refl|].
    apply same_radar_trans with (set_jobs rest w); [repeat split|].
    destruct (token_cancelled _); [apply same_radar_refl|].
    destruct j; [apply same_radar_radar_start | apply same_radar_radar_update].
  - unfold timer_fires. case_bool_decide; [|apply same_radar_refl].
    destruct (sendActionsCallback_fields
                (set_timers (filter (fun t => t <> id) (timers w)) w))
      as (_ & _ & _ & _ & _ & Hradar & Hargs' & Hkey & _).
    unfold same_radar. rewrite Hradar, Hargs', Hkey. repeat split.
Qed.

Lemma virtualComponents_writes w :
  radar_config (_radar (component (virtualComponents w)))
  = radar_config (_radar (component w))
  /\ radar_inputs (_radar (component (virtualComponents w))) = inputs_of (args (component w))
  /\ args (component (virtualComponents w)) = args (component w)
  /\ key (component (virtualComponents w)) = key (component w).
Proof.
  unfold virtualComponents.
  destruct (same_radar_radar_scheduleUpdate true
    (set_component
       (set_radar
          (set_radar_inputs
             match items (args (component w)) with Some l => l | None => [] end
             (estimateHeight (args (component w))) (renderAll (args (component w)))
             (bufferSize (args (component w))) (_radar (component w)))
          (component w)) w)) as (Hr & Ha & Hk).
  pose proof (same_radar_projections _ _ (conj Hr (conj Ha Hk))) as [Hcfg Hin].
  rewrite Hcfg, Hin, Ha, Hk. open_world w. repeat split.
Qed.

Lemma step_keeps_config w e :
  radar_config (_radar (component (step w e))) = radar_config (_radar (component w))
  /\ key (component (step w e)) = key (component w).
Proof.
  destruct e;
    try (match goal with
         | |- context [step w ?e] =>
             destruct (same_radar_step w e) as (Hr & Ha & Hk); [discriminate | discriminate |]
         end;
         split; [apply same_radar_projections; repeat split; assumption | exact Hk]).
  - simpl. destruct (virtualComponents_writes w) as (Hcfg & _ & _ & Hk). split; assumption.
  - open_world w. split; reflexivity.
Qed.

(** X3.  What the constructor gives the radar beyond the four inputs of
    [virtualComponents] is never given again: the class, the starting index,
    the key path, the container selector, [renderFromLast], [shouldRecycle],
    the occlusion tag name and [initialRenderCount] stay those of
    construction through every run, whatever arguments arrive later. *)
Theorem radar_config_fixed_at_construction (ar : Args) (es : list Event) :
  let w := run es (constructor ar) in
  radar_config (_radar (component w))
  = (if nullish (arg_staticHeight ar) false then StaticRadar else DynamicRadar,
     calculateStartingIndex (nullish (arg_items ar) []) (arg_idForFirstItem ar)
       "@identity" (nullish (arg_renderFromLast ar) false),
     "@identity", nullish (arg_containerSelector ar) "*",
     nullish (arg_renderFromLast ar) false, true, "occluded-content",
     arg_initialRenderCount ar)
  /\ key (component w) = "@identity".
Proof.
  intros w.
  assert (Hreach : reachable ar w) by (apply reachable_run; constructor).
  induction Hreach as [|w' e _ IH].
  - unfold constructor. destruct (_ || _); split; reflexivity.
  - destruct (step_keeps_config w' e) as [Hcfg Hk]. rewrite Hcfg, Hk. exact IH.
Qed.

Lemma step_tracks_render w e :
  args (component (step w e))
  = match e with ArgsChanged a => a | _ => args (component w) end
  /\ radar_inputs (_radar (component (step w e)))
     = match e with
       | Render => inputs_of (args (component w))
       | _ => radar_inputs (_radar (component w))
       end.
Proof.
  destruct e;
    try (match goal with
         | |- context [step w ?e] =>
             destruct (same_radar_step w e) as (Hr & Ha & Hk); [discriminate | discriminate |]
         end;
         split; [exact Ha | apply same_radar_projections; repeat split; assumption]).
  - simpl. destruct (virtualComponents_writes w) as (_ & Hin & Ha & _). split; assumption.
  - open_world w. split; reflexivity.
Qed.

Lemma run_tracks_render es :
  forall w rendered,
    radar_inputs (_radar (component w)) = inputs_of rendered ->
    radar_inputs (_radar (component (run es w)))
    = inputs_of (rendered_args es (args (component w)) rendered).
Proof.
  induction es as [|e es IH]; intros w rendered Hw; [exact Hw|].
  change (run (e :: es) w) with (run es (step w e)).
  destruct (step_tracks_render w e) as [Ha Hin].
  rewrite (IH (step w e)
             (match e with Render => args (component w) | _ => rendered end)).
  - rewrite Ha. destruct e; reflexivity.
  - rewrite Hin. destruct e; try exact Hw; reflexivity.
Qed.

(** X4.  The radar's items, estimated height, [renderAll] and buffer size
    are at any time those of the arguments in force at the latest read of
    [virtualComponents], or of the constructor's arguments before the first
    read: new arguments reach the radar only through the getter. *)
Theorem radar_inputs_follow_render (ar : Args) (es : list Event) :
  radar_inputs (_radar (component (run es (constructor ar))))
  = inputs_of (rendered_args es ar ar).
Proof.
  change ar with (args (component (constructor ar))) at 2.
  apply run_tracks_render.
  unfold constructor. destruct (_ || _); reflexivity.
Qed.

(** ** Teardown, continued *)

Lemma filter_again {A : Type} (P : A -> Prop) `{forall x, Decision (P x)} (l : list A) :
  filter P (filter P l) = filter P l.
Proof.
  induction l as [|x l IH]; [reflexivity|].
  destruct (decide (P x)) as [Hx|Hx].
  - rewrite (filter_cons_True P x l Hx), (filter_cons_True P x _ Hx), IH. reflexivity.
  - rewrite (filter_cons_False P x l Hx). exact IH.
Qed.

(** X5.  Tearing down twice is tearing down once: the second
    [willDestroyMainContainer] changes nothing. *)
Theorem willDestroyMainContainer_idempotent (w : World) :
  willDestroyMainContainer (willDestroyMainContainer w) = willDestroyMainContainer w.
Proof.
  open_world w. unfold willDestroyMainContainer, radar_destroy, clearTimeout. simpl.
  destruct _nextSendActions0 as [t|]; simpl;
    unfold set_timers, set_jobs; simpl; rewrite ?filter_again; reflexivity.
Qed.

Lemma torn_down_step_waiting w e :
  torn_down w ->
  _scheduledActions (component (step w e)) = _scheduledActions (component w)
  /\ _nextSendActions (component (step w e)) = _nextSendActions (component w).
Proof.
  intros (Htok & Hmode & Hts). destruct e; simpl.
  - split; reflexivity.
  - open_world w. unfold willDestroyMainContainer. simpl.
    destruct _nextSendActions0; split; reflexivity.
  - open_world w. unfold virtualComponents, radar_scheduleUpdate. simpl in *.
    subst. split; reflexivity.
  - open_world w. split; reflexivity.
  - unfold radar_scheduleUpdate. rewrite Hmode. split; reflexivity.
  - unfold run_next_job. destruct (jobs w) as [|[q j] rest]; [split; reflexivity|].
    simpl. rewrite Htok. split; reflexivity.
  - unfold timer_fires. rewrite Hts.
    rewrite bool_decide_eq_false_2 by apply not_elem_of_nil.
    split; reflexivity.
Qed.

Lemma torn_down_run_waiting es w :
  torn_down w ->
  _scheduledActions (component (run es w)) = _scheduledActions (component w)
  /\ _nextSendActions (component (run es w)) = _nextSendActions (component w).
Proof.
  revert w. induction es as [|e es IH]; intros w Hw; simpl; [split; reflexivity|].
  destruct (torn_down_step w e Hw) as [Hnext _].
  destruct (torn_down_step_waiting w e Hw) as [Hs Hn].
  destruct (IH _ Hnext) as [Hs' Hn']. split; congruence.
Qed.

Lemma willDestroyMainContainer_keeps w :
  let wd := willDestroyMainContainer w in
  _scheduledActions (component wd) = _scheduledActions (component w)
  /\ _nextSendActions (component wd) = _nextSendActions (component w)
  /\ args (component wd) = args (component w)
  /\ key (component wd) = key (component w)
  /\ next_timer wd = next_timer w
  /\ trace wd = trace w.
Proof.
  open_world w. unfold willDestroyMainContainer. simpl.
  destruct _nextSendActions0; repeat split.
Qed.

Lemma reachable_torn_down ar w : reachable ar w -> torn_down (willDestroyMainContainer w).
Proof.
  intros Hw.
  pose proof (timers_tracked_step w WillDestroy (reachable_timers_tracked ar w Hw))
    as (_ & Hdead).
  assert (Htok : token_cancelled (component (willDestroyMainContainer w)) = true).
  { unfold willDestroyMainContainer. destruct (_nextSendActions _); reflexivity. }
  destruct (Hdead Htok) as [Hts Hmode]. repeat split; assumption.
Qed.

(** X6.  Actions still waiting at teardown are neither delivered nor
    discarded: from then on the waiting list and the timer field keep the
    values they had, so the field is never reset to [null]. *)
Theorem teardown_freezes_waiting_actions (ar : Args) (before after : list Event) :
  let w := run before (constructor ar) in
  let w' := run after (willDestroyMainContainer w) in
  _scheduledActions (component w') = _scheduledActions (component w)
  /\ _nextSendActions (component w') = _nextSendActions (component w)
  /\ filter is_batch (trace w') = filter is_batch (trace w).
Proof.
  intros w w'.
  assert (Hdown : torn_down (willDestroyMainContainer w)).
  { apply (reachable_torn_down ar), reachable_run. constructor. }
  destruct (torn_down_run_waiting after _ Hdown) as [Hs Hn].
  destruct (willDestroyMainContainer_keeps w) as (Hs' & Hn' & _ & _ & _ & Htr).
  unfold w'. rewrite Hs, Hn, (torn_down_run after _ Hdown), Htr.
  repeat split; assumption.
Qed.


(** ** The waiting list and the timer field *)

Lemma armed_means_waiting_emit e w :
  is_throw e = false -> armed_means_waiting w -> armed_means_waiting (emit e w).
Proof.
  intros He (Harmed & Hclean). split; [exact Harmed|].
  intros Hno. apply Hclean.
  unfold emit in Hno. simpl in Hno. rewrite filter_app in Hno.
  apply app_eq_nil in Hno as [Hno _]. exact Hno.
Qed.

Lemma armed_means_waiting_scheduleSendAction a i w :
  armed_means_waiting w -> armed_means_waiting (_scheduleSendAction a i w).
Proof.
  intros _. open_world w. unfold armed_means_waiting, _scheduleSendAction. simpl.
  destruct _nextSendActions0; simpl; split; try discriminate;
    intros; intros Hnil; destruct (app_cons_not_nil _ _ _ (eq_sym Hnil)).
Qed.

Lemma armed_means_waiting_sendAction a i w :
  armed_means_waiting w -> armed_means_waiting (sendAction a i w).
Proof.
  intros Hw. unfold sendAction.
  destruct (_hasAction (component w)) as [has|]; [|exact Hw].
  destruct (nullish (has !! a) false); [|exact Hw].
  apply armed_means_waiting_scheduleSendAction, Hw.
Qed.

Lemma armed_means_waiting_radar_update cs w :
  armed_means_waiting w -> armed_means_waiting (radar_update cs w).
Proof.
  intros Hw. unfold radar_update. destruct (radar_mode _); try exact Hw.
  assert (Hemit : armed_means_waiting (emit EffUpdate w)).
  { apply armed_means_waiting_emit; [reflexivity | exact Hw]. }
  destruct (radar_sendAction _); [|exact Hemit].
  apply (fold_sendAction_preserves armed_means_waiting);
    [apply armed_means_waiting_sendAction | exact Hemit].
Qed.

Lemma armed_means_waiting_step w e : armed_means_waiting w -> armed_means_waiting (step w e).
Proof.
  intros Hw. destruct e; simpl.
  - exact Hw.
  - open_world w. unfold armed_means_waiting, willDestroyMainContainer in *. simpl in *.
    destruct _nextSendActions0; exact Hw.
  - open_world w. unfold armed_means_waiting, virtualComponents, radar_scheduleUpdate in *.
    simpl in *. destruct radar_mode0; try exact Hw. destruct (existsb _ _); exact Hw.
  - open_world w. exact Hw.
  - unfold radar_scheduleUpdate. destruct (radar_mode _); try exact Hw.
    destruct (existsb _ _); exact Hw.
  - unfold run_next_job. destruct (jobs w) as [|[q j] rest]; [exact Hw|].
    assert (Hrest : armed_means_waiting (set_jobs rest w)) by exact Hw.
    destruct (token_cancelled _); [exact Hrest|].
    destruct j; [|apply armed_means_waiting_radar_update, Hrest].
    unfold radar_start. destruct (radar_mode _); try exact Hrest.
    destruct (Qle_bool _ _).
    + apply armed_means_waiting_emit; [reflexivity | exact Hrest].
    + apply armed_means_waiting_radar_update.
      apply armed_means_waiting_emit; [reflexivity|]. open_world w. exact Hw.
  - unfold timer_fires. case_bool_decide; [|exact Hw].
    destruct (sendActionsCallback_cases
                (set_timers (filter (fun t => t <> id) (timers w)) w))
      as (calls & completed & _ & ->).
    destruct completed; split; simpl; try discriminate.
    + reflexivity.
    + rewrite filter_app. simpl. rewrite filter_cons_True by (simpl; tauto).
      intros Hno. apply app_eq_nil in Hno as [_ Hno]. discriminate.
Qed.

(** X8.  In every state a constructed component can reach, a set timer
    field means actions are waiting, and an armed timer never finds the list
    empty.  With the field [null] the list is empty as long as no timer
    callback has thrown; a callback that throws leaves the field [null] and
    the list as it was. *)
Theorem waiting_list_matches_timer_field (ar : Args) (es : list Event) :
  let w := run es (constructor ar) in
  (forall t, _nextSendActions (component w) = Some t ->
     _scheduledActions (component w) <> [])
  /\ (forall t, t ∈ timers w -> _scheduledActions (component w) <> [])
  /\ (filter is_throw (trace w) = [] ->
      _nextSendActions (component w) = None ->
      _scheduledActions (component w) = [])
  /\ (forall t, t ∈ timers w -> items (args (component w)) = None ->
      _nextSendActions (component (timer_fires t w)) = None
      /\ _scheduledActions (component (timer_fires t w)) = _scheduledActions (component w)
      /\ trace (timer_fires t w) = trace w ++ [EffThrow []]).
Proof.
  intros w.
  assert (Hreach : reachable ar w) by (apply reachable_run; constructor).
  assert (Hinv : armed_means_waiting w).
  { clear - Hreach. induction Hreach as [|w e _ IH]; [|apply armed_means_waiting_step, IH].
    unfold armed_means_waiting, constructor. simpl. split; [discriminate | reflexivity]. }
  destruct Hinv as [Harmed Hclean].
  assert (Htimer : forall t, t ∈ timers w ->
            timers w = [t] /\ _scheduledActions (component w) <> []).
  { intros t Ht.
    destruct (reachable_timers_tracked ar w Hreach) as (Hlive & Hdead).
    destruct (token_cancelled (component w)).
    - destruct (Hdead eq_refl) as [Hts _]. rewrite Hts in Ht. inversion Ht.
    - rewrite (Hlive eq_refl) in *.
      destruct (_nextSendActions (component w)) as [t'|] eqn:Hn; [|inversion Ht].
      apply list_elem_of_singleton in Ht. subst t'.
      split; [reflexivity | apply (Harmed t eq_refl)]. }
  split; [exact Harmed|]. split; [intros t Ht; apply (Htimer t Ht)|].
  split; [exact Hclean|].
  intros t Ht Hitems. destruct (Htimer t Ht) as [Hts Hwaiting].
  destruct (timer_fires_throws t w Hts Hitems Hwaiting) as (Htrace & Hlist & Hnext & _).
  repeat split; assumption.
Qed.

(** ** Batches, continued *)


(** ** The handler snapshot, continued *)

Lemma constructor_allows ar action :
  action ∈ edge_actions ->
  truthy (arg_get ar action) = true ->
  exists has, _hasAction (component (constructor ar)) = Some has
              /\ has !! action = Some true.
Proof.
  intros Hin Htrue. unfold edge_actions in Hin.
  assert (Hany : truthy (arg_get ar "lastReached") || truthy (arg_get ar "firstReached")
                 || truthy (arg_get ar "lastVisibleChanged")
                 || truthy (arg_get ar "firstVisibleChanged") = true).
  { repeat (apply elem_of_cons in Hin as [-> | Hin]);
      [rewrite Htrue .. | inversion Hin]; rewrite ?orb_true_r; reflexivity. }
  unfold constructor. rewrite Hany. simpl. eexists. split; [reflexivity|].
  unfold hasActionRecord. rewrite !lookup_insert, lookup_empty.
  repeat (apply elem_of_cons in Hin as [-> | Hin]);
    [repeat case_decide; try congruence; rewrite Htrue; reflexivity .. | inversion Hin].
Qed.

(** X10.  An edge action whose handler was truthy at construction is
    scheduled by [sendAction] in every state the component can reach, whether
    or not the arguments still hold a handler for it; when they hold no
    function at the time the timer runs, the action yields no call. *)
Theorem snapshot_keeps_scheduling (ar : Args) (es : list Event) (action : string)
    (index : Z) :
  action ∈ edge_actions ->
  truthy (arg_get ar action) = true ->
  let w := run es (constructor ar) in
  radar_sendAction (_radar (component w)) = true
  /\ sendAction action index w = _scheduleSendAction action index w
  /\ (is_function (arg_get (args (component w)) action) = None ->
      deliver (items (args (component w))) (key (component w)) (args (component w))
        (action, index) = None).
Proof.
  intros Hin Htrue w.
  assert (Hreach : reachable ar w) by (apply reachable_run; constructor).
  destruct (reachable_same_wiring ar w Hreach) as (Hhas & Hsend & _).
  destruct (constructor_allows ar action Hin Htrue) as (has & Hc & Hlook).
  split; [|split].
  - rewrite Hsend. apply constructor_wiring_agrees. congruence.
  - unfold sendAction. rewrite Hhas, Hc, Hlook. reflexivity.
  - intros Hnofun. unfold deliver, forEachBody.
    destruct (items (args (component w))); [rewrite Hnofun|]; reflexivity.
Qed.

End VerticalCollection.

(** ** The static scenario *)

(** C2.  For 1000 items of estimated height 50 in a viewport of height 500
    with buffer size 1 at scroll offset 0, the static calculator gives
    [renderStart = 0], [firstVisible = 0], [lastVisible = 10],
    [renderEnd = 21], [beforeSpacer = 0] and [afterSpacer = 48950], with a
    buffer of 10 items; and for all inputs the render range is the visible
    range widened by the buffer and cut to the collection. *)
Theorem static_ranges_scenario :
  let r := StaticOcclusion.calculate (0 # 1) (500 # 1) (50 # 1) (1 # 1) 1000 in
  StaticOcclusion.renderStart r = 0%Z
  /\ StaticOcclusion.firstVisible r = 0%Z
  /\ StaticOcclusion.lastVisible r = 10%Z
  /\ StaticOcclusion.renderEnd r = 21%Z
  /\ StaticOcclusion.beforeSpacer r = (0 # 1)%Q
  /\ StaticOcclusion.afterSpacer r = (48950 # 1)%Q
  /\ StaticOcclusion.bufferItems (1 # 1) (500 # 1) (50 # 1) = 10%Z
  /\ (forall scrollOffset viewportHeight estimateHeight bufferSize totalItems,
        let r := StaticOcclusion.calculate scrollOffset viewportHeight estimateHeight
                   bufferSize totalItems in
        let buffer := StaticOcclusion.bufferItems bufferSize viewportHeight estimateHeight in
        StaticOcclusion.renderStart r = Z.max 0 (StaticOcclusion.firstVisible r - buffer)
        /\ StaticOcclusion.renderEnd r
           = Z.min totalItems (StaticOcclusion.lastVisible r + buffer + 1)).
Proof.
  repeat split.
Qed.

(** ** The statements at work on the sample host *)

Lemma calculateStartingIndex_least_match_witness :
  calculateStartingIndex Sample.objectAt Sample.keyForItem
    [Some "a"; Some "b"; Some "b"] (Some "b") "@identity" false = 1%Z
  /\ calculateStartingIndex Sample.objectAt Sample.keyForItem
       [Some "a"; Some "b"; Some "b"] (Some "z") "@identity" false = 0%Z.
Proof.
  split.
  - apply (proj1 (calculateStartingIndex_least_match Sample.objectAt Sample.keyForItem
             [Some "a"; Some "b"; Some "b"] "b" "@identity" false) 1%nat).
    + simpl. lia.
    + reflexivity.
    + intros j Hj. assert (j = 0%nat) as -> by lia. discriminate.
  - apply (proj1 (proj2 (calculateStartingIndex_least_match Sample.objectAt
             Sample.keyForItem [Some "a"; Some "b"; Some "b"] "z" "@identity" false))).
    intros i Hi. simpl in Hi.
    destruct i as [|[|[|i]]]; [discriminate | discriminate | discriminate | lia].
Defined.





Lemma bufferSize_default_and_assertion_witness :
  let ar := mkArgs (Some (50 # 1)%Q) (Some [Some "a"]) None None (Some (0 # 1)%Q) None None
              None None ∅ in
  let w := run Sample.objectAt Sample.keyForItem ([Render] ++ [DidInsert; RunJob []])
             (constructor Sample.objectAt Sample.keyForItem ar) in
  trace w = [EffNewRadar DynamicRadar; EffAssert "bufferSize must be greater than 0"]
  /\ radar_mode (_radar (component w)) = idle
  /\ trace (run Sample.objectAt Sample.keyForItem [Render; Scroll; RunJob []] w) = trace w.
Proof.
  intros ar.
  apply (proj2 (bufferSize_default_and_assertion Sample.objectAt Sample.keyForItem ar)
           (0 # 1)%Q [Render] [] [Render; Scroll; RunJob []]).
  - reflexivity.
  - unfold Qle. simpl. lia.
  - constructor; [left; reflexivity | constructor].
  - intros Hin.
    apply elem_of_cons in Hin as [Hin|Hin]; [discriminate|].
    apply elem_of_cons in Hin as [Hin|Hin]; [discriminate|].
    apply elem_of_cons in Hin as [Hin|Hin]; [discriminate|].
    inversion Hin.
Defined.

Lemma handlers_fixed_at_construction_witness :
  let ar := mkArgs None (Some [Some "a"; Some "b"]) None None None None None None None
              (<["lastReached" := JFun 1%positive]> ∅) in
  let ar' := mkArgs None (Some [Some "a"; Some "b"]) None None None None None None None
               (<["lastReached" := JFun 1%positive]> (<["firstReached" := JFun 2%positive]> ∅)) in
  let w := run Sample.objectAt Sample.keyForItem
             [DidInsert; ArgsChanged ar'; RunJob [("firstReached", 0%Z)]]
             (constructor Sample.objectAt Sample.keyForItem ar) in
  sendAction "firstReached" 0%Z w = w
  /\ ("firstReached", 0%Z) ∉ _scheduledActions (component w).
Proof.
  intros ar ar' w.
  apply (proj2 (proj2 (handlers_fixed_at_construction Sample.objectAt Sample.keyForItem ar
                         [DidInsert; ArgsChanged ar'; RunJob [("firstReached", 0%Z)]]))
           "firstReached" 0%Z).
  reflexivity.
Defined.

Lemma isEmpty_only_for_present_empty_witness :
  let ar := mkArgs None None None None None None None None None ∅ in
  isEmpty (Item := Sample.item) ar = false
  /\ radar_items (_radar (component
       (virtualComponents (constructor Sample.objectAt Sample.keyForItem ar)))) = [].
Proof.
  intros ar.
  destruct (proj2 (proj2 (isEmpty_only_for_present_empty ar)) eq_refl) as [Hfalse Hradar].
  split; [exact Hfalse|].
  apply Hradar. reflexivity.
Defined.

(** * Properties of the debug decorator *)

Section DebugProperties.

Context {Item Element : Type}.

Local Abbreviation detect := (detectIssuesWithCSS (Item := Item) (Element := Element)).
Local Abbreviation drun := (debug_run (Item := Item) (Element := Element)).
Local Abbreviation dstep := (debug_step (Item := Item) (Element := Element)).


(** ** The visualization *)

Lemma replay_app (log more : list VisEffect) :
  replay (log ++ more) = fold_left replay_step more (replay log).
Proof. unfold replay. apply fold_left_app. Qed.

Lemma updateVisualization_replay w :
  replay (vis_log w) = (held (debug_fields w), true) ->
  replay (vis_log (updateVisualization w))
  = (held (debug_fields (updateVisualization w)), true).
Proof.
  intros Hw. destruct w as [[vis css [v|]] next log]; unfold updateVisualization, held in *;
    simpl in *; destruct vis; simpl; rewrite ?replay_app, ?Hw; simpl;
    rewrite ?bool_decide_eq_true_2 by (apply list_elem_of_here || reflexivity);
    rewrite ?filter_cons_False, ?filter_nil by tauto; reflexivity.
Qed.

Lemma willDestroy_replay w :
  replay (vis_log w) = (held (debug_fields w), true) ->
  replay (vis_log (willDestroy w)) = ([], true)
  /\ __visualization (debug_fields (willDestroy w)) = None.
Proof.
  intros Hw. destruct w as [[vis css [v|]] next log]; unfold willDestroy, held in *;
    simpl in *; rewrite ?replay_app, ?Hw; simpl;
    rewrite ?bool_decide_eq_true_2 by apply list_elem_of_here;
    rewrite ?filter_cons_False, ?filter_nil by tauto; split; reflexivity.
Qed.

Lemma debug_step_replay w e :
  replay (vis_log w) = (held (debug_fields w), true) ->
  replay (vis_log (dstep w e)) = (held (debug_fields (dstep w e)), true).
Proof.
  intros Hw. destruct e; simpl; try exact Hw.
  - apply updateVisualization_replay, Hw.
  - destruct (willDestroy_replay w Hw) as [Hlog Hfield].
    rewrite Hlog. unfold held. rewrite Hfield. reflexivity.
Qed.

Lemma debug_run_replay es :
  forall w, replay (vis_log w) = (held (debug_fields w), true) ->
            replay (vis_log (drun es w)) = (held (debug_fields (drun es w)), true).
Proof.
  induction es as [|e es IH]; intros w Hw; [exact Hw|].
  apply (IH (dstep w e)), debug_step_replay, Hw.
Qed.

(** X13.  Whatever the host and the radar do, the decorator handles its
    visualizations soundly: one is created only while none is alive, only a
    living one is rendered or destroyed, and the visualizations alive are at
    any time exactly the one the field [__visualization] holds, if any. *)
Theorem visualization_lifecycle_sound (es : list DebugEvent) :
  let w := drun es debug_constructor in
  replay (vis_log w) = (held (debug_fields w), true)
  /\ (length (fst (replay (vis_log w))) <= 1)%nat.
Proof.
  intros w.
  assert (Hinv : replay (vis_log w) = (held (debug_fields w), true)).
  { apply debug_run_replay. reflexivity. }
  split; [exact Hinv|].
  rewrite Hinv. unfold held. destruct (__visualization _); simpl; lia.
Qed.

(** X14.  No visualization outlives the component or the debug flag: after
    [willDestroy], and after an update that finds [debugVis] off, none is
    alive and the field is [null]; while [debugVis] is on, an update leaves
    exactly one alive. *)
Theorem visualization_torn_down (es : list DebugEvent) (radar : RadarElements)
    (its : option (list Item)) :
  let w := drun es debug_constructor in
  (let w' := dstep w Destroyed in
   fst (replay (vis_log w')) = [] /\ __visualization (debug_fields w') = None)
  /\ (let w' := drun [SetDebugVis false; DidUpdate radar its] w in
      fst (replay (vis_log w')) = [] /\ __visualization (debug_fields w') = None)
  /\ (let w' := drun [SetDebugVis true; DidUpdate radar its] w in
      exists v, fst (replay (vis_log w')) = [v]
                /\ __visualization (debug_fields w') = Some v).
Proof.
  intros w.
  assert (Hinv : replay (vis_log w) = (held (debug_fields w), true)).
  { apply debug_run_replay. reflexivity. }
  split; [|split].
  - simpl. destruct (willDestroy_replay w Hinv) as [Hlog Hfield].
    rewrite Hlog. split; [reflexivity | exact Hfield].
  - intros w'.
    assert (Hinv' : replay (vis_log w') = (held (debug_fields w'), true)).
    { apply debug_run_replay, Hinv. }
    assert (Hfield : __visualization (debug_fields w') = None).
    { unfold w'. simpl. unfold updateVisualization. simpl.
      destruct (__visualization (debug_fields w)); reflexivity. }
    rewrite Hinv'. unfold held. rewrite Hfield. split; reflexivity.
  - intros w'.
    assert (Hinv' : replay (vis_log w') = (held (debug_fields w'), true)).
    { apply debug_run_replay, Hinv. }
    assert (Hfield : exists v, __visualization (debug_fields w') = Some v).
    { unfold w'. simpl. unfold updateVisualization. simpl.
      destruct (__visualization (debug_fields w)); simpl; eauto. }
    destruct Hfield as [v Hv]. exists v.
    rewrite Hinv'. unfold held. rewrite Hv. split; reflexivity.
Qed.

(** X15.  The decorator is inert unless the host turns [debugVis] on: as
    long as no event sets the flag, no visualization is created, nothing is
    written to the console and the field stays [null]. *)
Theorem visualization_off_by_default (es : list DebugEvent) :
  Forall (fun e => e <> SetDebugVis true) es ->
  let w := drun es debug_constructor in
  vis_log w = []
  /\ __visualization (debug_fields w) = None
  /\ debugVis (debug_fields w) = false.
Proof.
  intros Hes.
  assert (Hgen : forall w,
            vis_log w = [] /\ __visualization (debug_fields w) = None
            /\ debugVis (debug_fields w) = false ->
            vis_log (drun es w) = []
            /\ __visualization (debug_fields (drun es w)) = None
            /\ debugVis (debug_fields (drun es w)) = false).
  { induction Hes as [|e es He _ IH]; intros w Hw; [exact Hw|].
    apply (IH (dstep w e)).
    destruct w as [[vis css field] next log]. simpl in Hw.
    destruct Hw as (-> & -> & ->).
    destruct e as [[|]| | |]; simpl; try (repeat split; reflexivity).
    contradiction. }
  apply Hgen. repeat split.
Qed.

End DebugProperties.

(** ** The further statements at work *)

Lemma calculateStartingIndex_bounds_witness :
  (0 <= calculateStartingIndex Sample.objectAt Sample.keyForItem
          [Some "a"; Some "b"; Some "c"] (Some "c") "@identity" true < 3)%Z.
Proof.
  apply (proj1 (calculateStartingIndex_bounds Sample.objectAt Sample.keyForItem
                  [Some "a"; Some "b"; Some "c"] (Some "c") "@identity" true)).
  discriminate.
Defined.

Lemma calculateStartingIndex_zero_or_found_witness :
  exists i,
    calculateStartingIndex Sample.objectAt Sample.keyForItem
      [Some "a"; Some "b"; Some "c"] (Some "c") "@identity" false = Z.of_nat i
    /\ (i < 3)%nat
    /\ key_matches Sample.objectAt Sample.keyForItem
         [Some "a"; Some "b"; Some "c"] "@identity" "c" i.
Proof.
  apply (proj1 (calculateStartingIndex_zero_or_found Sample.objectAt Sample.keyForItem
                  [Some "a"; Some "b"; Some "c"] "c" "@identity" false)).
  vm_compute. discriminate.
Defined.


Lemma waiting_list_matches_timer_field_witness :
  let ar := mkArgs None (Some [Some "a"; Some "b"]) None None None None None None None
              (<["lastReached" := JFun 1%positive]> ∅) in
  let w := run Sample.objectAt Sample.keyForItem
             [DidInsert; RunJob [("lastReached", 1%Z)]]
             (constructor Sample.objectAt Sample.keyForItem ar) in
  _scheduledActions (component w) <> [].
Proof.
  intros ar w.
  apply (proj1 (proj2 (waiting_list_matches_timer_field Sample.objectAt
                         Sample.keyForItem ar
                         [DidInsert; RunJob [("lastReached", 1%Z)]])) 1%positive).
  vm_compute. left.
Defined.


Lemma snapshot_keeps_scheduling_witness :
  let ar := mkArgs None (Some [Some "a"; Some "b"]) None None None None None None None
              (<["lastReached" := JFun 1%positive]> ∅) in
  let ar' := mkArgs None (Some [Some "a"; Some "b"]) None None None None None None None ∅ in
  let w := run Sample.objectAt Sample.keyForItem [DidInsert; ArgsChanged ar']
             (constructor Sample.objectAt Sample.keyForItem ar) in
  sendAction "lastReached" 1%Z w = _scheduleSendAction "lastReached" 1%Z w
  /\ deliver Sample.objectAt Sample.keyForItem (items (args (component w)))
       (key (component w)) (args (component w)) ("lastReached", 1%Z) = None.
Proof.
  intros ar ar' w.
  destruct (snapshot_keeps_scheduling Sample.objectAt Sample.keyForItem ar
              [DidInsert; ArgsChanged ar'] "lastReached" 1%Z)
    as (_ & Hsend & Hnone).
  - vm_compute. left.
  - reflexivity.
  - split; [exact Hsend | apply Hnone; reflexivity].
Defined.


Lemma visualization_off_by_default_witness :
  vis_log
    (debug_run (Item := unit)
       [SetDebugCSS true; DidUpdate (mkRadarElements ViewportContainer true None) None;
        SetDebugVis false; Destroyed]
       debug_constructor)
  = [].
Proof.
  apply (visualization_off_by_default (Item := unit)
           [SetDebugCSS true; DidUpdate (mkRadarElements ViewportContainer true None) None;
            SetDebugVis false; Destroyed]).
  repeat constructor; discriminate.
Defined.
